(** * Offline-first task synchronisation: a shallow embedding

    The development embeds [src/services/syncService.ts],
    [src/services/taskService.ts] and the routes that trigger a pass
    and create, read and delete tasks, and proves properties of the
    synchronisation engine: the retry / dead-letter path, the conflict
    resolver, the canonical queue order, the batch checksum and the
    effect of a sync pass on the local store.

    Modelling conventions.
    - A JavaScript [Date] is its time value, an integer number of
      milliseconds since the epoch ([Z]).  Invalid dates are not
      represented: every date the services store comes from [new Date()].
    - A JavaScript string is a [string]; [charCodeAt] is the code of the
      character, comparison with [<] is code-unit-wise lexicographic.
    - The SQLite tables [tasks], [sync_queue] and [dead_letter_queue]
      are lists of rows in insertion order.  [JSON.stringify] followed by
      [JSON.parse] on a queue payload is the identity on the payload.
    - The outside world (clock, uuid generator, remote server) is a
      family of oracles indexed by the number of calls made so far; the
      counters are part of the state that the services thread. *)

From Stdlib Require Import ZArith List String Ascii Bool Lia.
From Stdlib Require Import Sorted Permutation OrdersEx RelationClasses.
From Stdlib Require Import DecimalString.
Import ListNotations.

Local Open Scope string_scope.
Local Open Scope Z_scope.
Local Open Scope list_scope.

(* ================================================================== *)
(** * Data model *)
(* ================================================================== *)

(** ['create' | 'update' | 'delete'] *)
Inductive Operation := create | update | delete.

(** The values the column [tasks.sync_status] takes. *)
Inductive SyncStatus := pending | in_progress | synced | error | failed.

(** The [status] of a per-item outcome of a batch response. *)
Inductive ItemStatus := success | conflict | item_error.

Definition SyncStatus_eqb (a b : SyncStatus) : bool :=
  match a, b with
  | pending, pending | in_progress, in_progress | synced, synced
  | error, error | failed, failed => true
  | _, _ => false
  end.

Definition operation_name (o : Operation) : string :=
  match o with
  | create => "create"
  | update => "update"
  | delete => "delete"
  end.

(** [Task], with the optional [version] that [inferOperationType] reads
    through the cast [Task & { version?: number }]. *)
Record Task := mkTask {
  id : string;
  title : string;
  description : option string;
  completed : bool;
  created_at : Z;
  updated_at : Z;
  is_deleted : bool;
  sync_status : option SyncStatus;
  server_id : option string;
  last_synced_at : option Z;
  version : option Z
}.

(** [Partial<Task>]: [None] is an absent key. *)
Record PartialTask := mkPartialTask {
  p_id : option string;
  p_title : option string;
  p_description : option string;
  p_completed : option bool;
  p_created_at : option Z;
  p_updated_at : option Z;
  p_is_deleted : option bool;
  p_sync_status : option SyncStatus;
  p_server_id : option string;
  p_last_synced_at : option Z;
  p_version : option Z
}.

Definition partial_of_task (t : Task) : PartialTask :=
  mkPartialTask (Some (id t)) (Some (title t)) (description t)
    (Some (completed t)) (Some (created_at t)) (Some (updated_at t))
    (Some (is_deleted t)) (sync_status t) (server_id t)
    (last_synced_at t) (version t).

(** A row of the table [tasks]. *)
Record TaskRow := mkTaskRow {
  row_id : string;
  row_title : string;
  row_description : option string;
  row_completed : bool;
  row_created_at : Z;
  row_updated_at : Z;
  row_is_deleted : bool;
  row_sync_status : SyncStatus;
  row_server_id : option string;
  row_last_synced_at : option Z;
  row_version : option Z
}.

(** [SyncQueueItem], also the shape of a row of [sync_queue]. *)
Record SyncQueueItem := mkItem {
  q_id : string;
  q_task_id : string;
  q_operation : Operation;
  q_data : PartialTask;
  q_created_at : Z;
  q_retry_count : Z;
  q_error_message : option string
}.

(** A row of [dead_letter_queue]. *)
Record DeadLetter := mkDeadLetter {
  dl_id : string;
  dl_task_id : string;
  dl_operation : Operation;
  dl_data : PartialTask;
  dl_error_message : string;
  dl_failed_at : Z
}.

(** An element of [SyncResult.errors]. *)
Record SyncError := mkSyncError {
  e_task_id : string;
  e_operation : string;
  e_error : string;
  e_timestamp : Z
}.

Record SyncResult := mkResult {
  r_success : bool;
  synced_items : Z;
  failed_items : Z;
  errors : list SyncError
}.

(** An element of [BatchSyncResponse.processed_items]. *)
Record ProcessedItem := mkProcessed {
  client_id : string;
  pi_server_id : option string;
  status : ItemStatus;
  resolved_data : option Task;
  pi_error : option string
}.

Definition BatchSyncResponse := list ProcessedItem.

Record BatchSyncRequest := mkRequest {
  items : list SyncQueueItem;
  client_timestamp : Z;
  checksum : string
}.

(** What a rejected promise carries: an [Error] with its message, or
    some other value. *)
Inductive Thrown := ThrownError (message : string) | ThrownOther.

(* ================================================================== *)
(** * JavaScript primitives *)
(* ================================================================== *)

(** [s || fallback] on an optional string: the empty string is falsy. *)
Definition str_or (s : option string) (fallback : string) : string :=
  match s with
  | Some v => if (v =? "")%string then fallback else v
  | None => fallback
  end.

(** [s || null] (or [s || undefined]). *)
Definition str_or_null (s : option string) : option string :=
  match s with
  | Some v => if (v =? "")%string then None else Some v
  | None => None
  end.

(** [a < b] on strings. *)
Definition str_lt (a b : string) : bool :=
  match String_as_OT.compare a b with
  | Lt => true
  | _ => false
  end.

(** [ToInt32]: reduction modulo 2^32 into [-2^31, 2^31). *)
Definition to_int32 (z : Z) : Z :=
  (z + 2147483648) mod 4294967296 - 2147483648.

(** [h << 5] on a number holding an integer. *)
Definition shl5 (h : Z) : Z := to_int32 (Z.shiftl (to_int32 h) 5).

(** [h | 0]. *)
Definition or0 (h : Z) : Z := Z.lor (to_int32 h) 0.

Definition charCode (c : ascii) : Z := Z.of_N (N_of_ascii c).

(** [Number.prototype.toString] on an integer. *)
Definition int_toString (z : Z) : string :=
  NilZero.string_of_int (Z.to_int z).

(** Fixed-width decimal rendering, as [toISOString] pads its fields. *)
Fixpoint pad (width : nat) (n : Z) : string :=
  match width with
  | O => ""
  | S w =>
      (pad w (n / 10)%Z ++
       String (ascii_of_N (Z.to_N (48 + n mod 10)%Z)) "")%string
  end.

(** Civil date of a day number (days since 1970-01-01), proleptic
    Gregorian calendar. *)
Definition civil_from_days (days : Z) : Z * Z * Z :=
  let z := days + 719468 in
  let era := z / 146097 in
  let doe := z - era * 146097 in
  let yoe := (doe - doe / 1460 + doe / 36524 - doe / 146096) / 365 in
  let doy := doe - (365 * yoe + yoe / 4 - yoe / 100) in
  let mp := (5 * doy + 2) / 153 in
  let d := doy - (153 * mp + 2) / 5 + 1 in
  let m := if mp <? 10 then mp + 3 else mp - 9 in
  let y := yoe + era * 400 + (if m <=? 2 then 1 else 0) in
  (y, m, d).

(** [Date.prototype.toISOString]: [YYYY-MM-DDTHH:mm:ss.sssZ], with the
    expanded [+YYYYYY] / [-YYYYYY] year outside 0..9999. *)
Definition toISOString (t : Z) : string :=
  let days := t / 86400000 in
  let ms := t mod 86400000 in
  let '(y, m, d) := civil_from_days days in
  let year :=
    if (0 <=? y) && (y <=? 9999) then pad 4 y
    else ((if (y <? 0)%Z then "-" else "+") ++ pad 6 (Z.abs y))%string in
  (year ++ "-" ++ pad 2 m ++ "-" ++ pad 2 d ++ "T" ++
   pad 2 (ms / 3600000)%Z ++ ":" ++ pad 2 (ms / 60000 mod 60)%Z ++ ":" ++
   pad 2 (ms / 1000 mod 60)%Z ++ "." ++ pad 3 (ms mod 1000)%Z ++ "Z")%string.

(** [Array.prototype.join]. *)
Fixpoint join (sep : string) (l : list string) : string :=
  match l with
  | [] => ""
  | [s] => s
  | s :: rest => (s ++ sep ++ join sep rest)%string
  end.

(* ================================================================== *)
(** * The local store and the outside world *)
(* ================================================================== *)

(** The three tables, the oracles for the clock, the uuid generator
    and the remote server, and how often each oracle has been asked.
    [remote k req] is the outcome of the [k]-th [axios.post] when it
    carries [req]: the rejection it throws, or [response.data].
    [version_default] is the column default of [tasks.version]; the
    schema (db/database) is not among the sources. *)
Record World := mkWorld {
  tasks : list TaskRow;
  sync_queue : list SyncQueueItem;
  dead_letter_queue : list DeadLetter;
  version_default : option Z;
  clock : nat -> Z;
  clock_reads : nat;
  uuid_source : nat -> string;
  uuids_drawn : nat;
  health : nat -> bool;
  probes : nat;
  remote : nat -> BatchSyncRequest -> Thrown + BatchSyncResponse;
  posted : list BatchSyncRequest
}.

Definition with_tasks (f : list TaskRow -> list TaskRow) (w : World) :=
  mkWorld (f (tasks w)) (sync_queue w) (dead_letter_queue w)
    (version_default w) (clock w) (clock_reads w) (uuid_source w)
    (uuids_drawn w) (health w) (probes w) (remote w) (posted w).

Definition with_sync_queue
    (f : list SyncQueueItem -> list SyncQueueItem) (w : World) :=
  mkWorld (tasks w) (f (sync_queue w)) (dead_letter_queue w)
    (version_default w) (clock w) (clock_reads w) (uuid_source w)
    (uuids_drawn w) (health w) (probes w) (remote w) (posted w).

Definition with_dead_letter_queue
    (f : list DeadLetter -> list DeadLetter) (w : World) :=
  mkWorld (tasks w) (sync_queue w) (f (dead_letter_queue w))
    (version_default w) (clock w) (clock_reads w) (uuid_source w)
    (uuids_drawn w) (health w) (probes w) (remote w) (posted w).

(** State passing: an [async] method is a function from the world
    before the call to its result and the world after it. *)
Definition M (A : Type) : Type := World -> A * World.

Definition ret {A} (a : A) : M A := fun w => (a, w).

Definition bind {A B} (m : M A) (k : A -> M B) : M B :=
  fun w => k (fst (m w)) (snd (m w)).

Declare Scope sync_scope.
Delimit Scope sync_scope with sync.
Notation "x <- m ;; k" := (bind m (fun x => k))
  (at level 61, m at next level, right associativity) : sync_scope.
Notation "m ;; k" := (bind m (fun _ => k))
  (at level 61, right associativity) : sync_scope.
Local Open Scope sync_scope.

Definition result_of {A} (m : M A) (w : World) : A := fst (m w).
Definition world_after {A} (m : M A) (w : World) : World := snd (m w).

(** [new Date()], and [CURRENT_TIMESTAMP] inside a statement. *)
Definition now : M Z := fun w =>
  (clock w (clock_reads w),
   mkWorld (tasks w) (sync_queue w) (dead_letter_queue w)
     (version_default w) (clock w) (S (clock_reads w)) (uuid_source w)
     (uuids_drawn w) (health w) (probes w) (remote w) (posted w)).

Definition uuidv4 : M string := fun w =>
  (uuid_source w (uuids_drawn w),
   mkWorld (tasks w) (sync_queue w) (dead_letter_queue w)
     (version_default w) (clock w) (clock_reads w) (uuid_source w)
     (S (uuids_drawn w)) (health w) (probes w) (remote w) (posted w)).

(** [axios.get(apiUrl + '/health')] *)
Definition axios_get_health : M bool := fun w =>
  (health w (probes w),
   mkWorld (tasks w) (sync_queue w) (dead_letter_queue w)
     (version_default w) (clock w) (clock_reads w) (uuid_source w)
     (uuids_drawn w) (health w) (S (probes w)) (remote w) (posted w)).

(** [axios.post(apiUrl + '/sync/batch', request)] *)
Definition axios_post (req : BatchSyncRequest)
  : M (Thrown + BatchSyncResponse) := fun w =>
  (remote w (List.length (posted w)) req,
   mkWorld (tasks w) (sync_queue w) (dead_letter_queue w)
     (version_default w) (clock w) (clock_reads w) (uuid_source w)
     (uuids_drawn w) (health w) (probes w) (remote w)
     (posted w ++ [req])).

(** ** SQL statements *)

(** A bound parameter compared with a text column; [None] is NULL, and
    [column = NULL] holds for no row. *)
Definition sql_eq (column : string) (param : option string) : bool :=
  match param with
  | Some v => (column =? v)%string
  | None => false
  end.

(** [UPDATE tasks SET ... WHERE ...] *)
Definition UPDATE_tasks (where_ : TaskRow -> bool)
    (set : TaskRow -> TaskRow) : M unit := fun w =>
  (tt, with_tasks (map (fun r => if where_ r then set r else r)) w).

(** [UPDATE sync_queue SET ... WHERE ...] *)
Definition UPDATE_sync_queue (where_ : SyncQueueItem -> bool)
    (set : SyncQueueItem -> SyncQueueItem) : M unit := fun w =>
  (tt, with_sync_queue (map (fun r => if where_ r then set r else r)) w).

(** [DELETE FROM sync_queue WHERE ...] *)
Definition DELETE_FROM_sync_queue (where_ : SyncQueueItem -> bool)
  : M unit := fun w =>
  (tt, with_sync_queue (filter (fun r => negb (where_ r))) w).

Definition INSERT_INTO_tasks (r : TaskRow) : M unit := fun w =>
  (tt, with_tasks (fun t => t ++ [r]) w).

Definition INSERT_INTO_sync_queue (r : SyncQueueItem) : M unit := fun w =>
  (tt, with_sync_queue (fun q => q ++ [r]) w).

Definition INSERT_INTO_dead_letter_queue (r : DeadLetter) : M unit :=
  fun w => (tt, with_dead_letter_queue (fun q => q ++ [r]) w).

(** [db.get('SELECT * FROM tasks WHERE id = ?', [id])]: the first
    matching row, if any. *)
Definition SELECT_task (task_id : string) : M (option TaskRow) := fun w =>
  (find (fun r => (row_id r =? task_id)%string) (tasks w), w).

(** [db.get('SELECT retry_count FROM sync_queue WHERE id = ?', [id])] *)
Definition SELECT_retry_count (item_id : string) : M (option Z) := fun w =>
  (option_map q_retry_count
     (find (fun r => (q_id r =? item_id)%string) (sync_queue w)), w).

(** [db.all('SELECT * FROM sync_queue ORDER BY created_at ASC')]: rows
    with the same [created_at] keep their insertion order. *)
Fixpoint insert_by_created_at (x : SyncQueueItem) (l : list SyncQueueItem) :=
  match l with
  | [] => [x]
  | y :: rest =>
      if q_created_at x <? q_created_at y then x :: l
      else y :: insert_by_created_at x rest
  end.

Definition SELECT_sync_queue : M (list SyncQueueItem) := fun w =>
  (fold_left (fun acc x => insert_by_created_at x acc) (sync_queue w) [], w).

(* ================================================================== *)
(** * SyncService.addToSyncQueue *)
(* ================================================================== *)

Definition addToSyncQueue (taskId : string) (operation : Operation)
    (data : PartialTask) : M unit :=
  item_id <- uuidv4 ;;
  created <- now ;;
  INSERT_INTO_sync_queue (mkItem item_id taskId operation data created 0 None).

(* ================================================================== *)
(** * TaskService *)
(* ================================================================== *)

Definition mapRowToTask (row : TaskRow) : Task :=
  mkTask (row_id row) (row_title row)
    (Some (str_or (row_description row) ""))
    (row_completed row) (row_created_at row) (row_updated_at row)
    (row_is_deleted row) (Some (row_sync_status row))
    (str_or_null (row_server_id row)) (row_last_synced_at row) None.

Definition getTask (task_id : string) : M (option Task) :=
  row <- SELECT_task task_id ;;
  ret match row with
      | Some r => if row_is_deleted r then None else Some (mapRowToTask r)
      | None => None
      end.

Definition createTask (taskData : PartialTask) : M Task :=
  t <- now ;;
  new_id <- uuidv4 ;;
  let task :=
    mkTask new_id (str_or (p_title taskData) "Untitled Task")
      (Some (str_or (p_description taskData) ""))
      (match p_completed taskData with Some b => b | None => false end)
      t t false (Some pending) None None None in
  (fun w =>
     INSERT_INTO_tasks
       (mkTaskRow (id task) (title task) (description task)
          (completed task) (created_at task) (updated_at task)
          (is_deleted task) pending (server_id task)
          (last_synced_at task) (version_default w)) w) ;;
  addToSyncQueue (id task) create (partial_of_task task) ;;
  ret task.

(** [{ ...existing, ...updates, updated_at: t, sync_status: 'pending' }] *)
Definition spread_update (existing : Task) (updates : PartialTask) (t : Z)
  : Task :=
  let pick {A} (u : option A) (e : A) := match u with Some v => v | None => e end in
  let pick_opt {A} (u e : option A) := match u with Some v => Some v | None => e end in
  mkTask (pick (p_id updates) (id existing))
    (pick (p_title updates) (title existing))
    (pick_opt (p_description updates) (description existing))
    (pick (p_completed updates) (completed existing))
    (pick (p_created_at updates) (created_at existing))
    t
    (pick (p_is_deleted updates) (is_deleted existing))
    (Some pending)
    (pick_opt (p_server_id updates) (server_id existing))
    (pick_opt (p_last_synced_at updates) (last_synced_at existing))
    (pick_opt (p_version updates) (version existing)).

(** A placeholder for which the parameter array holds no value stays
    unbound, and SQLite reads an unbound parameter as NULL. *)
Definition unbound : option string := None.

(** The statement of [updateTask] has seven placeholders
    ([title], [description], [completed], [updated_at], [is_deleted],
    [sync_status] and the [id] of the WHERE clause); its parameter array
    has the first six values. *)
Definition updateTask (task_id : string) (updates : PartialTask)
  : M (option Task) :=
  existing <- getTask task_id ;;
  match existing with
  | None => ret None
  | Some existing =>
      t <- now ;;
      let updated := spread_update existing updates t in
      UPDATE_tasks (fun r => sql_eq (row_id r) unbound)
        (fun r =>
           mkTaskRow (row_id r) (title updated) (description updated)
             (completed updated) (row_created_at r) (updated_at updated)
             (is_deleted updated) pending (row_server_id r)
             (row_last_synced_at r) (row_version r)) ;;
      addToSyncQueue (id updated) update (partial_of_task updated) ;;
      ret (Some updated)
  end.

Definition deleteTask (task_id : string) : M bool :=
  existing <- getTask task_id ;;
  match existing with
  | None => ret false
  | Some existing =>
      updatedAt <- now ;;
      UPDATE_tasks (fun r => sql_eq (row_id r) (Some task_id))
        (fun r =>
           mkTaskRow (row_id r) (row_title r) (row_description r)
             (row_completed r) (row_created_at r) updatedAt
             true pending (row_server_id r) (row_last_synced_at r)
             (option_map (fun v => v + 1) (row_version r))) ;;
      addToSyncQueue task_id delete
        (partial_of_task
           (mkTask (id existing) (title existing) (description existing)
              (completed existing) (created_at existing) updatedAt
              true (sync_status existing) (server_id existing)
              (last_synced_at existing) (version existing))) ;;
      ret true
  end.

(* ================================================================== *)
(** * SyncService *)
(* ================================================================== *)

(** What a [SyncService] is built from: the batch size read from the
    environment at load time (a positive number; the default is 10) and
    whether a [TaskService] was handed to the constructor. *)
Record Config := mkConfig {
  SYNC_BATCH_SIZE : positive;
  taskService : bool
}.

Definition MAX_RETRY_COUNT : Z := 3.

Definition OP_PRIORITY (o : Operation) : Z :=
  match o with
  | create => 1
  | update => 2
  | delete => 3
  end.

(** The comparator handed to [sort] in [sync]. *)
Definition compareItems (a b : SyncQueueItem) : Z :=
  if negb (q_task_id a =? q_task_id b)%string then
    if str_lt (q_task_id a) (q_task_id b) then -1 else 1
  else
    let ta := q_created_at a in
    let tb := q_created_at b in
    if negb (ta =? tb) then ta - tb
    else OP_PRIORITY (q_operation a) - OP_PRIORITY (q_operation b).

(** [Array.prototype.sort] with a comparator: a stable sort, here by
    insertion. *)
Fixpoint sort_insert {A} (cmp : A -> A -> Z) (x : A) (l : list A) : list A :=
  match l with
  | [] => [x]
  | y :: rest =>
      if cmp x y <=? 0 then x :: l else y :: sort_insert cmp x rest
  end.

Definition array_sort {A} (cmp : A -> A -> Z) (l : list A) : list A :=
  fold_right (sort_insert cmp) [] l.

(** The slices [sorted.slice(i, i + size)] for [i = 0, size, 2*size, ...]
    below [sorted.length]. *)
Fixpoint slices {A} (fuel size : nat) (l : list A) : list (list A) :=
  match fuel with
  | O => []
  | S fuel' =>
      match l with
      | [] => []
      | _ => firstn size l :: slices fuel' size (skipn size l)
      end
  end.

Definition batches {A} (size : positive) (l : list A) : list (list A) :=
  slices (List.length l) (Pos.to_nat size) l.

(** [Array.from(new Set(l))]: first occurrences, in order. *)
Fixpoint distinct (l : list string) : list string :=
  match l with
  | [] => []
  | x :: rest => x :: filter (fun y => negb (y =? x)%string) (distinct rest)
  end.

Definition set_row_status (s : SyncStatus) (r : TaskRow) : TaskRow :=
  mkTaskRow (row_id r) (row_title r) (row_description r) (row_completed r)
    (row_created_at r) (row_updated_at r) (row_is_deleted r) s
    (row_server_id r) (row_last_synced_at r) (row_version r).

Definition markTasksInProgress (taskIds : list string) : M unit :=
  match taskIds with
  | [] => ret tt
  | _ =>
      UPDATE_tasks (fun r => existsb (String.eqb (row_id r)) taskIds)
        (set_row_status in_progress)
  end.

Definition checkConnectivity : M bool := axios_get_health.

(** The string the checksum of a batch is computed from. *)
Definition checksum_data (batch : list SyncQueueItem) : string :=
  join "|"
    (map (fun i =>
            (q_task_id i ++ ":" ++ operation_name (q_operation i) ++ ":" ++
             toISOString (q_created_at i))%string) batch).

(** The loop of [calculateChecksum], from position 0 of [data]:
    [hash = (hash << 5) - hash + chr; hash |= 0]. *)
Fixpoint checksum_loop (data : string) (hash : Z) : Z :=
  match data with
  | EmptyString => hash
  | String chr rest =>
      checksum_loop rest (or0 (shl5 hash - hash + charCode chr))
  end.

Definition calculateChecksum (batch : list SyncQueueItem) : string :=
  int_toString (checksum_loop (checksum_data batch) 0).

Definition processBatch (batch : list SyncQueueItem)
  : M (Thrown + BatchSyncResponse) :=
  let checksum := calculateChecksum batch in
  t <- now ;;
  let request := mkRequest batch t checksum in
  online <- checkConnectivity ;;
  if negb online then ret (inl (ThrownError "Server not reachable"))
  else axios_post request.

Definition inferOperationType (task : Task) : Operation :=
  if is_deleted task then delete
  else
    let created := created_at task in
    let updated := updated_at task in
    if (match version task with
        | Some v => negb (v =? 0) && (v <=? 1)
        | None => false
        end) || (created =? updated)
    then create
    else update.

Definition resolveConflict (localTask serverTask : Task) : Task :=
  let localUpdated := updated_at localTask in
  let serverUpdated := updated_at serverTask in
  if localUpdated >? serverUpdated then localTask
  else if serverUpdated >? localUpdated then serverTask
  else
    let localOp := inferOperationType localTask in
    let serverOp := inferOperationType serverTask in
    if OP_PRIORITY localOp >=? OP_PRIORITY serverOp then localTask
    else serverTask.

(** [COALESCE(?, server_id)] *)
Definition coalesce {A} (param old : option A) : option A :=
  match param with
  | Some v => Some v
  | None => old
  end.

Definition updateSyncStatus (taskId : string) (new_status : SyncStatus)
    (serverData : option Task) : M unit :=
  current_timestamp <- now ;;
  UPDATE_tasks (fun r => sql_eq (row_id r) (Some taskId))
    (fun r =>
       mkTaskRow (row_id r) (row_title r) (row_description r)
         (row_completed r) (row_created_at r) (row_updated_at r)
         (row_is_deleted r) new_status
         (coalesce
            (match serverData with
             | Some d => str_or_null (server_id d)
             | None => None
             end)
            (row_server_id r))
         (if SyncStatus_eqb new_status synced then Some current_timestamp
          else row_last_synced_at r)
         (row_version r)) ;;
  if SyncStatus_eqb new_status synced || SyncStatus_eqb new_status failed
  then DELETE_FROM_sync_queue (fun q => sql_eq (q_task_id q) (Some taskId))
  else ret tt.

Definition handleSyncError (item : SyncQueueItem) (error_message : string)
  : M unit :=
  retryRow <- SELECT_retry_count (q_id item) ;;
  let currentRetry :=
    match retryRow with
    | Some retry_count => retry_count
    | None => q_retry_count item
    end in
  let retryCount := currentRetry + 1 in
  if retryCount >=? MAX_RETRY_COUNT then
    new_id <- uuidv4 ;;
    failed_at <- now ;;
    INSERT_INTO_dead_letter_queue
      (mkDeadLetter new_id (q_task_id item) (q_operation item)
         (q_data item) error_message failed_at) ;;
    DELETE_FROM_sync_queue (fun q => sql_eq (q_id q) (Some (q_id item))) ;;
    updateSyncStatus (q_task_id item) failed None
  else
    UPDATE_sync_queue (fun q => sql_eq (q_id q) (Some (q_id item)))
      (fun q =>
         mkItem (q_id q) (q_task_id q) (q_operation q) (q_data q)
           (q_created_at q) retryCount (Some error_message)) ;;
    updateSyncStatus (q_task_id item) error None.

(** ** The sync pass *)

(** A loop that threads the [result] object through its iterations. *)
Fixpoint fold_M {A S} (f : A -> S -> M S) (l : list A) (s : S) : M S :=
  match l with
  | [] => ret s
  | x :: rest => s' <- f x s ;; fold_M f rest s'
  end.

Definition initial_result : SyncResult := mkResult true 0 0 [].

(** [result.synced_items++] *)
Definition count_synced (r : SyncResult) : SyncResult :=
  mkResult (r_success r) (synced_items r + 1) (failed_items r) (errors r).

(** [result.failed_items++; result.errors.push(e)] *)
Definition count_failed (e : SyncError) (r : SyncResult) : SyncResult :=
  mkResult (r_success r) (synced_items r) (failed_items r + 1)
    (errors r ++ [e]).

(** [result.success = false] *)
Definition mark_unsuccessful (r : SyncResult) : SyncResult :=
  mkResult false (synced_items r) (failed_items r) (errors r).

(** The body of [for (const res of response.processed_items)]. *)
Definition processItem (cfg : Config) (res : ProcessedItem)
    (result : SyncResult) : M SyncResult :=
  let record_error (message : string) : M SyncResult :=
    timestamp <- now ;;
    UPDATE_tasks (fun r => sql_eq (row_id r) (Some (client_id res)))
      (set_row_status error) ;;
    ret (mark_unsuccessful
           (count_failed
              (mkSyncError (client_id res) "unknown" message timestamp)
              result)) in
  match status res, resolved_data res with
  | success, _ =>
      updateSyncStatus (client_id res) synced (resolved_data res) ;;
      ret (count_synced result)
  | conflict, Some serverTask =>
      localTask <- (if taskService cfg then getTask (client_id res)
                    else ret None) ;;
      match localTask with
      | Some localTask =>
          let resolved := resolveConflict localTask serverTask in
          updateTask (client_id res) (partial_of_task resolved) ;;
          updateSyncStatus (client_id res) synced (Some resolved) ;;
          ret (count_synced result)
      | None => record_error "Conflict: local task missing"
      end
  | _, _ => record_error (str_or (pi_error res) "Unknown error")
  end.

(** The body of [for (const item of batch)] in the catch block. *)
Definition failItem (errorMessage : string) (item : SyncQueueItem)
    (result : SyncResult) : M SyncResult :=
  handleSyncError item errorMessage ;;
  timestamp <- now ;;
  ret (count_failed
         (mkSyncError (q_task_id item) (operation_name (q_operation item))
            errorMessage timestamp)
         result).

(** [err instanceof Error ? err.message : 'Unknown error'] *)
Definition message_of (err : Thrown) : string :=
  match err with
  | ThrownError m => m
  | ThrownOther => "Unknown error"
  end.

(** One iteration of the batch loop. *)
Definition syncBatch (cfg : Config) (batch : list SyncQueueItem)
    (result : SyncResult) : M SyncResult :=
  markTasksInProgress (distinct (map q_task_id batch)) ;;
  response <- processBatch batch ;;
  match response with
  | inr processed_items => fold_M (processItem cfg) processed_items result
  | inl err =>
      result' <- fold_M (failItem (message_of err)) batch result ;;
      ret (mark_unsuccessful result')
  end.

(** [sync()].  The local store of the model does not fail, so the outer
    catch block, which reports a failing store, has no counterpart. *)
Definition sync (cfg : Config) : M SyncResult :=
  rawItems <- SELECT_sync_queue ;;
  let sorted := array_sort compareItems rawItems in
  fold_M (syncBatch cfg) (batches (SYNC_BATCH_SIZE cfg) sorted)
    initial_result.

(* ================================================================== *)
(** * Listing tasks, and the route layer *)
(* ================================================================== *)

(** [SELECT * FROM tasks WHERE is_deleted = 0] *)
Definition getAllTasks : M (list Task) := fun w =>
  (map mapRowToTask (filter (fun r => negb (row_is_deleted r)) (tasks w)), w).

(** [SELECT * FROM tasks WHERE sync_status IN ('pending', 'error')] *)
Definition needs_sync (r : TaskRow) : bool :=
  match row_sync_status r with
  | pending | error => true
  | in_progress | synced | failed => false
  end.

Definition getTasksNeedingSync : M (list Task) := fun w =>
  (map mapRowToTask (filter needs_sync (tasks w)), w).

(** What a route answers: a status code with an error message, or a
    status code with a body. *)
Inductive Response (A : Type) :=
| Failure (code : Z) (error_message : string)
| Reply (code : Z) (body : A).
Arguments Failure {A} code error_message.
Arguments Reply {A} code body.

(** [POST /sync] of [createSyncRouter]; its [SyncService] is built with
    a [TaskService]. *)
Definition postSync (batch_size : positive) : M (Response SyncResult) :=
  online <- checkConnectivity ;;
  if negb online then ret (Failure 503 "No connectivity")
  else
    result <- sync (mkConfig batch_size true) ;;
    ret (Reply 200 result).

(** [POST /] of [createTaskRouter], on the [title] and [description] of
    the request body. *)
Definition postTask (body_title body_description : option string)
  : M (Response Task) :=
  match str_or_null body_title with
  | None => ret (Failure 400 "Title is required")
  | Some _ =>
      newTask <- createTask
                   (mkPartialTask None body_title body_description None None
                      None None None None None None) ;;
      ret (Reply 201 newTask)
  end.

(** [GET /:id] of [createTaskRouter]. *)
Definition getTaskRoute (task_id : string) : M (Response Task) :=
  task <- getTask task_id ;;
  match task with
  | None => ret (Failure 404 "Task not found")
  | Some t => ret (Reply 200 t)
  end.

(** [DELETE /:id] of [createTaskRouter]. *)
Definition deleteTaskRoute (task_id : string) : M (Response string) :=
  deleted <- deleteTask task_id ;;
  if negb deleted then ret (Failure 404 "Task not found")
  else ret (Reply 200 "Task deleted successfully").

(** The columns of a task row that hold what the user wrote. *)
Definition row_content (r : TaskRow)
  : string * string * option string * bool * Z * Z * bool * option Z :=
  (row_id r, row_title r, row_description r, row_completed r,
   row_created_at r, row_updated_at r, row_is_deleted r, row_version r).

(* ================================================================== *)
(** * Sample data *)
(* ================================================================== *)

Module Sample.

Definition t0 : Z := 1704067200000.

Definition row (task_id : string) (st : SyncStatus) : TaskRow :=
  mkTaskRow task_id "Buy milk" None false t0 (t0 + 1000) false st
    None None None.

Definition payload (task_id : string) : PartialTask :=
  mkPartialTask (Some task_id) (Some "Buy milk") None (Some false)
    (Some t0) (Some (t0 + 1000)) (Some false) (Some pending) None None None.

Definition entry (entry_id task_id : string) (op : Operation)
    (enqueued : Z) (retries : Z) : SyncQueueItem :=
  mkItem entry_id task_id op (payload task_id) enqueued retries None.

(** A world around the given tables: the clock advances by one
    millisecond per reading, uuids are numbered, and the remote is
    described by [up] and [reply]. *)
Definition world (rows : list TaskRow) (queue : list SyncQueueItem)
    (up : nat -> bool)
    (reply : nat -> BatchSyncRequest -> Thrown + BatchSyncResponse)
  : World :=
  mkWorld rows queue [] None
    (fun k => t0 + 5000 + Z.of_nat k) O
    (fun k => ("uuid-" ++ int_toString (Z.of_nat k))%string) O
    up O reply [].

Definition offline : nat -> bool := fun _ => false.
Definition online : nat -> bool := fun _ => true.

Definition no_reply : nat -> BatchSyncRequest -> Thrown + BatchSyncResponse :=
  fun _ _ => inl (ThrownError "Network Error").

(** The remote accepts every item, as the stub behind [/sync/batch]
    does: the assigned identity is the [server_id] of the outcome and
    the [id] of [resolved_data]. *)
Definition accept_all : nat -> BatchSyncRequest -> Thrown + BatchSyncResponse :=
  fun _ req =>
    inr (map (fun i =>
                mkProcessed (q_task_id i) (Some "srv_42") success
                  (Some (mkTask "srv_42" "Buy milk" None false
                           (q_created_at i) (t0 + 9000) false None None
                           None None))
                  None)
           (items req)).

Definition cfg : Config := mkConfig 10%positive true.

(** A task created locally and never edited since. *)
Definition fresh_local : Task :=
  mkTask "a" "Buy milk" (Some "") false t0 t0 false (Some pending)
    None None None.

(** A remote version edited at the same instant, carrying a version
    counter of 0. *)
Definition remote_version_zero : Task :=
  mkTask "a" "Buy oat milk" (Some "") false (t0 - 1000) t0 false None
    None None (Some 0).

(** Two plain updates with the same [updated_at]. *)
Definition updated_local : Task :=
  mkTask "a" "Buy milk" (Some "") false t0 (t0 + 1000) false (Some pending)
    None None None.

Definition updated_remote : Task :=
  mkTask "a" "Buy oat milk" (Some "") false t0 (t0 + 1000) false None
    None None (Some 4).

(** Two entries enqueued at the same instant for two tasks whose
    identities differ in their first group only. *)
Definition colliding_a : SyncQueueItem :=
  entry "e1" "948f3f85-9c0b-4ef8-bb6d-6bb9bd380a11" create t0 0.

Definition colliding_b : SyncQueueItem :=
  entry "e2" "993efe19-9c0b-4ef8-bb6d-6bb9bd380a11" create t0 0.

(** A store holding one task that has been synced, and nothing queued. *)
Definition synced_world : World :=
  world [row "a" synced] [] online accept_all.

(** A store holding one pending task and its queued creation. *)
Definition pending_world : World :=
  world [row "a" pending] [entry "e1" "a" create t0 0] online accept_all.

(** The outcome the stub behind [/sync/batch] returns for task "a". *)
Definition accepted_outcome : ProcessedItem :=
  mkProcessed "a" (Some "srv_42") success
    (Some (mkTask "srv_42" "Buy milk" None false t0 (t0 + 9000) false None
             None None None))
    None.

(** The entry queued in [pending_world]. *)
Definition queued_entry : SyncQueueItem := entry "e1" "a" create t0 0.


(** Two pending tasks with one queued mutation each, and a remote that
    cannot be reached. *)
Definition offline_world : World :=
  world [row "a" pending; row "b" pending]
    [entry "e1" "a" create t0 0; entry "e2" "b" update (t0 + 5) 0]
    offline no_reply.

(** Nothing queued, and a remote that cannot be reached. *)
Definition idle_offline_world : World :=
  world [row "a" synced] [] offline no_reply.

(** The entries queued in [offline_world]. *)
Definition offline_batch : list SyncQueueItem :=
  [entry "e1" "a" create t0 0; entry "e2" "b" update (t0 + 5) 0].


(** Two queued mutations of task "a": a creation that has failed twice
    and a later update that has not failed yet. *)
Definition worn_entry : SyncQueueItem := entry "e1" "a" create t0 2.

Definition fresh_entry : SyncQueueItem := entry "e2" "a" update (t0 + 5) 0.

Definition siblings_world : World :=
  world [row "a" pending] [worn_entry; fresh_entry] offline no_reply.

End Sample.

(* ================================================================== *)
(** * The specification's own notions *)
(* ================================================================== *)

(** The operation kind a task version implies, as the resolver's rule
    words it: delete if the delete flag is set; else create if creation
    and update timestamps coincide or the version counter is at most 1;
    else update. *)
Definition stated_kind (t : Task) : Operation :=
  if is_deleted t then delete
  else if (created_at t =? updated_at t)
          || match version t with Some v => v <=? 1 | None => false end
       then create
       else update.

(** The winner as the rule words it: the strictly later version; on a
    tie the version of higher priority, the local one at equal priority. *)
Definition stated_winner (localTask serverTask : Task) : Task :=
  if updated_at serverTask <? updated_at localTask then localTask
  else if updated_at localTask <? updated_at serverTask then serverTask
  else if OP_PRIORITY (stated_kind serverTask)
            <=? OP_PRIORITY (stated_kind localTask)
       then localTask
       else serverTask.

(** [create < update < delete], reflexively. *)
Definition op_le (a b : Operation) : Prop :=
  match a, b with
  | create, _ => True
  | update, create => False
  | update, _ => True
  | delete, delete => True
  | delete, _ => False
  end.

(** The canonical order of queue entries: by task identity
    (lexicographic), then by enqueue timestamp, then by operation. *)
Definition canonical_le (a b : SyncQueueItem) : Prop :=
  String_as_OT.lt (q_task_id a) (q_task_id b) \/
  (q_task_id a = q_task_id b /\
   (q_created_at a < q_created_at b \/
    (q_created_at a = q_created_at b /\
     op_le (q_operation a) (q_operation b)))).

(** The polynomial rolling hash [h -> h*31 + charCode], wrapped to 32
    bits at every step. *)
Definition rolling_hash (data : string) : Z :=
  fold_left (fun h c => to_int32 (h * 31 + charCode c))
    (list_ascii_of_string data) 0.

(** What identifies an item in the checksum. *)
Definition item_string (i : SyncQueueItem) : string :=
  (q_task_id i ++ ":" ++ operation_name (q_operation i) ++ ":" ++
   toISOString (q_created_at i))%string.

Definition stated_checksum (batch : list SyncQueueItem) : string :=
  int_toString (rolling_hash (String.concat "|" (map item_string batch))).

(** A queue entry after one more failed attempt. *)
Definition bump (error_message : string) (q : SyncQueueItem) : SyncQueueItem :=
  mkItem (q_id q) (q_task_id q) (q_operation q) (q_data q) (q_created_at q)
    (q_retry_count q + 1) (Some error_message).

(** [tasks] after [UPDATE tasks SET sync_status = s WHERE id = task_id]. *)
Definition tasks_marked (task_id : string) (s : SyncStatus)
    (rows : list TaskRow) : list TaskRow :=
  map (fun r => if (row_id r =? task_id)%string then set_row_status s r else r)
    rows.

(** The queue row stored under an entry identity. *)
Definition stored_entry (entry_id : string) (w : World) : option SyncQueueItem :=
  find (fun q => (q_id q =? entry_id)%string) (sync_queue w).

(** The retry counter the failure handler starts from: the stored one,
    or the one of the item when its row is gone. *)
Definition current_retry (item : SyncQueueItem) (w : World) : Z :=
  match stored_entry (q_id item) w with
  | Some q => q_retry_count q
  | None => q_retry_count item
  end.

(** An error record without its timestamp. *)
Definition error_key (e : SyncError) : string * string * string :=
  (e_task_id e, e_operation e, e_error e).

(** The error record, without its timestamp, that the catch block of
    the batch loop pushes for an item. *)
Definition failure_key (error_message : string) (i : SyncQueueItem)
  : string * string * string :=
  (q_task_id i, operation_name (q_operation i), error_message).

(** The part of the world that talks to the remote. *)
Definition net (w : World) : (nat -> bool) * nat * list BatchSyncRequest :=
  (health w, probes w, posted w).

(** Every queue row stored under the identity of [i] is [i] itself. *)
Definition untouched (w : World) (i : SyncQueueItem) : Prop :=
  forall q, In q (sync_queue w) -> q_id q = q_id i -> q = i.

(** A dead letter for [i] with the given message is in the store. *)
Definition archived (error_message : string) (w : World)
    (i : SyncQueueItem) : Prop :=
  exists dl, In dl (dead_letter_queue w) /\
             dl_task_id dl = q_task_id i /\
             dl_operation dl = q_operation i /\
             dl_data dl = q_data i /\
             dl_error_message dl = error_message.

(** [i] has been through the failure handler: a row still stored under
    its identity is [i] with one more retry and the message, which
    happens only below the retry budget; at the budget [i] is archived. *)
Definition handled (error_message : string) (w : World)
    (i : SyncQueueItem) : Prop :=
  (forall q, In q (sync_queue w) -> q_id q = q_id i ->
     q = bump error_message i /\ q_retry_count i + 1 < 3) /\
  (3 <= q_retry_count i + 1 -> archived error_message w i).


(** A dead letter made from a queue entry. *)
Definition letter_of (i : SyncQueueItem) (dl : DeadLetter) : Prop :=
  dl_task_id dl = q_task_id i /\ dl_operation dl = q_operation i /\
  dl_data dl = q_data i.

(** The remote accepts every request: it answers with success
    outcomes only, at least one for the task of every item sent. *)
Definition accepts_everything (w : World) : Prop :=
  (forall k, health w k = true) /\
  forall k req,
    exists outcomes,
      remote w k req = inr outcomes /\
      Forall (fun res => status res = success) outcomes /\
      forall i, In i (items req) ->
        exists res, In res outcomes /\ client_id res = q_task_id i.

(** The message of the error that [processBatch] throws when the probe
    fails. *)
Definition offline_message : string := "Server not reachable".

(* ================================================================== *)
(** * JavaScript primitives on known values *)
(* ================================================================== *)

Example toISOString_epoch :
  toISOString 0 = "1970-01-01T00:00:00.000Z".
Proof. reflexivity. Qed.

Example toISOString_2024 :
  toISOString 1704067200000 = "2024-01-01T00:00:00.000Z".
Proof. reflexivity. Qed.

Example toISOString_leap :
  toISOString 951827696789 = "2000-02-29T12:34:56.789Z".
Proof. reflexivity. Qed.

Example toISOString_before_epoch :
  toISOString (-1) = "1969-12-31T23:59:59.999Z".
Proof. reflexivity. Qed.

Example int_toString_neg : int_toString (-2147483648) = "-2147483648".
Proof. reflexivity. Qed.

Example int_toString_zero : int_toString 0 = "0".
Proof. reflexivity. Qed.

(* ================================================================== *)
(** * Frame lemmas *)
(* ================================================================== *)

Ltac run :=
  cbv beta iota zeta delta
    [world_after result_of handleSyncError updateSyncStatus
     markTasksInProgress processBatch checkConnectivity getTask
     updateTask deleteTask createTask addToSyncQueue failItem
     SELECT_task SELECT_retry_count SELECT_sync_queue
     UPDATE_tasks UPDATE_sync_queue DELETE_FROM_sync_queue
     INSERT_INTO_tasks INSERT_INTO_sync_queue INSERT_INTO_dead_letter_queue
     axios_get_health axios_post now uuidv4 bind ret
     with_tasks with_sync_queue with_dead_letter_queue sql_eq coalesce
     fst snd tasks sync_queue dead_letter_queue version_default clock
     clock_reads uuid_source uuids_drawn health probes remote posted];
  repeat match goal with
    | w : World |- _ =>
        progress fold (tasks w) (sync_queue w) (dead_letter_queue w)
          (version_default w) (clock w) (clock_reads w) (uuid_source w)
          (uuids_drawn w) (health w) (probes w) (remote w) (posted w)
    end.

Lemma bind_run {A B} (m : M A) (k : A -> M B) (w : World) :
  bind m k w = k (fst (m w)) (snd (m w)).
Proof. reflexivity. Qed.

Lemma updateSyncStatus_sync_queue taskId st sd w :
  sync_queue (snd (updateSyncStatus taskId st sd w)) =
  match st with
  | synced | failed =>
      filter (fun q => negb (q_task_id q =? taskId)%string) (sync_queue w)
  | _ => sync_queue w
  end.
Proof. destruct st; run; reflexivity. Qed.

Lemma updateSyncStatus_tasks_plain taskId st w :
  st <> synced ->
  tasks (snd (updateSyncStatus taskId st None w)) =
  tasks_marked taskId st (tasks w).
Proof.
  intros Hst. unfold tasks_marked.
  destruct st; try congruence; run; apply map_ext; intros r;
    destruct (row_id r =? taskId)%string; reflexivity.
Qed.

Lemma updateSyncStatus_dead_letter_queue taskId st sd w :
  dead_letter_queue (snd (updateSyncStatus taskId st sd w)) =
  dead_letter_queue w.
Proof. destruct st; run; reflexivity. Qed.

Lemma updateSyncStatus_net taskId st sd w :
  health (snd (updateSyncStatus taskId st sd w)) = health w /\
  probes (snd (updateSyncStatus taskId st sd w)) = probes w /\
  posted (snd (updateSyncStatus taskId st sd w)) = posted w.
Proof. destruct st; run; auto. Qed.

Lemma handleSyncError_sync_queue item msg w :
  sync_queue (snd (handleSyncError item msg w)) =
  if current_retry item w + 1 >=? 3 then
    filter (fun q => negb (q_task_id q =? q_task_id item)%string)
      (filter (fun q => negb (q_id q =? q_id item)%string) (sync_queue w))
  else
    map (fun q =>
           if (q_id q =? q_id item)%string then
             mkItem (q_id q) (q_task_id q) (q_operation q) (q_data q)
               (q_created_at q) (current_retry item w + 1) (Some msg)
           else q)
      (sync_queue w).
Proof.
  unfold current_retry, stored_entry, handleSyncError, MAX_RETRY_COUNT.
  rewrite bind_run.
  replace (fst (SELECT_retry_count (q_id item) w))
    with (option_map q_retry_count
            (find (fun q => (q_id q =? q_id item)%string) (sync_queue w)))
    by reflexivity.
  replace (snd (SELECT_retry_count (q_id item) w)) with w by reflexivity.
  destruct (find _ (sync_queue w)) as [q|]; cbn [option_map];
    match goal with |- context [?c >=? 3] => destruct (c >=? 3) end;
    run; reflexivity.
Qed.

Lemma handleSyncError_dead_letter_queue item msg w :
  dead_letter_queue (snd (handleSyncError item msg w)) =
  if current_retry item w + 1 >=? 3 then
    dead_letter_queue w ++
    [mkDeadLetter (uuid_source w (uuids_drawn w)) (q_task_id item)
       (q_operation item) (q_data item) msg (clock w (clock_reads w))]
  else dead_letter_queue w.
Proof.
  unfold current_retry, stored_entry, handleSyncError, MAX_RETRY_COUNT.
  rewrite bind_run.
  replace (fst (SELECT_retry_count (q_id item) w))
    with (option_map q_retry_count
            (find (fun q => (q_id q =? q_id item)%string) (sync_queue w)))
    by reflexivity.
  replace (snd (SELECT_retry_count (q_id item) w)) with w by reflexivity.
  destruct (find _ (sync_queue w)) as [q|]; cbn [option_map];
    match goal with |- context [?c >=? 3] => destruct (c >=? 3) end;
    run; reflexivity.
Qed.

Lemma handleSyncError_tasks item msg w :
  tasks (snd (handleSyncError item msg w)) =
  tasks_marked (q_task_id item)
    (if current_retry item w + 1 >=? 3 then failed else error) (tasks w).
Proof.
  unfold current_retry, stored_entry, handleSyncError, MAX_RETRY_COUNT,
    tasks_marked.
  rewrite bind_run.
  replace (fst (SELECT_retry_count (q_id item) w))
    with (option_map q_retry_count
            (find (fun q => (q_id q =? q_id item)%string) (sync_queue w)))
    by reflexivity.
  replace (snd (SELECT_retry_count (q_id item) w)) with w by reflexivity.
  destruct (find _ (sync_queue w)) as [q|]; cbn [option_map];
    match goal with |- context [?c >=? 3] => destruct (c >=? 3) end;
    run; apply map_ext; intros r;
    destruct (row_id r =? q_task_id item)%string; reflexivity.
Qed.

Lemma handleSyncError_net item msg w :
  health (snd (handleSyncError item msg w)) = health w /\
  probes (snd (handleSyncError item msg w)) = probes w /\
  posted (snd (handleSyncError item msg w)) = posted w.
Proof.
  unfold handleSyncError. rewrite bind_run.
  replace (snd (SELECT_retry_count (q_id item) w)) with w by reflexivity.
  match goal with |- context [?c >=? MAX_RETRY_COUNT] =>
    destruct (c >=? MAX_RETRY_COUNT) end; run; auto.
Qed.

Lemma find_map_same_key (key : string) (f : SyncQueueItem -> SyncQueueItem)
    (l : list SyncQueueItem) :
  (forall q, q_id (f q) = q_id q) ->
  find (fun q => (q_id q =? key)%string) (map f l) =
  option_map f (find (fun q => (q_id q =? key)%string) l).
Proof.
  intros Hkey. induction l as [|q l IH]; [reflexivity|].
  cbn [map find]. rewrite Hkey.
  destruct (q_id q =? key)%string; [reflexivity | exact IH].
Qed.

(* ================================================================== *)
(** * The retry / dead-letter path *)
(* ================================================================== *)

(** C10.  Setting a task's status to synced or failed deletes every
    queue entry owned by that task and keeps all others, in order;
    setting any other status leaves the queue as it is. *)
Theorem updateSyncStatus_clears_task_queue :
  forall (taskId : string) (new_status : SyncStatus)
         (serverData : option Task) (w : World),
    sync_queue (world_after (updateSyncStatus taskId new_status serverData) w) =
    match new_status with
    | synced | failed =>
        filter (fun q => negb (q_task_id q =? taskId)%string) (sync_queue w)
    | pending | in_progress | error => sync_queue w
    end.
Proof.
  intros. unfold world_after.
  rewrite updateSyncStatus_sync_queue. destruct new_status; reflexivity.
Qed.

Lemma map_untouched_rows (item_id : string)
    (set : SyncQueueItem -> SyncQueueItem) (l : list SyncQueueItem) :
  find (fun q => (q_id q =? item_id)%string) l = None ->
  map (fun q => if (q_id q =? item_id)%string then set q else q) l = l.
Proof.
  intros Hnone. rewrite <- (map_id l) at 2. apply map_ext_in.
  intros q Hq. rewrite (find_none _ _ Hnone q Hq). reflexivity.
Qed.

Lemma filter_untouched_rows (item_id : string) (l : list SyncQueueItem) :
  find (fun q => (q_id q =? item_id)%string) l = None ->
  filter (fun q => negb (q_id q =? item_id)%string) l = l.
Proof.
  intros Hnone. induction l as [|q l IH]; [reflexivity|].
  cbn [find filter] in *. destruct (q_id q =? item_id)%string;
    [discriminate|]. cbn [negb]. f_equal. exact (IH Hnone).
Qed.

(** C1, as stated, fails: the catch block of the batch loop hands the
    handler the items of its snapshot.  With two queued entries of one
    task, dead-lettering the first deletes the row of the second; the
    handler then runs on the second, whose incremented counter 1 is
    below 3, and the entry is not in the queue afterwards (nor in the
    dead-letter store).  The same happens in a whole pass. *)
Lemma handleSyncError_entry_gone :
  let w1 :=
    world_after (handleSyncError Sample.worn_entry "Network Error")
      Sample.siblings_world in
  let w2 :=
    world_after (handleSyncError Sample.fresh_entry "Network Error") w1 in
  In Sample.fresh_entry (sync_queue Sample.siblings_world) /\
  (q_retry_count Sample.fresh_entry + 1 <? 3) = true /\
  stored_entry (q_id Sample.fresh_entry) w1 = None /\
  sync_queue w2 = [] /\
  map dl_operation (dead_letter_queue w2) = [create] /\
  map row_sync_status (tasks w2) = [error] /\
  sync_queue (world_after (sync Sample.cfg) Sample.siblings_world) = [] /\
  map dl_operation
    (dead_letter_queue (world_after (sync Sample.cfg) Sample.siblings_world))
    = [create].
Proof.
  split; [right; left; reflexivity|]. vm_compute. repeat split.
Qed.

(** C1, amended.  The failure handler on an item whose row is stored in
    the queue under its identity: while the incremented retry counter
    is below 3 the entry stays in the queue with that counter and the
    error message, nothing is archived and the task is marked error;
    once it reaches 3 exactly one dead letter carrying the entry and
    the message is appended, no row with the entry's identity is left
    in the queue and the task is marked failed.  On an item whose row
    is no longer stored the handler counts from the counter of the item
    itself: below 3 it leaves queue and dead-letter store as they are
    and marks the task error; at 3 it appends exactly one dead letter
    for the item, deletes the queued entries of the task and marks the
    task failed. *)
Theorem handleSyncError_retry_or_dead_letter :
  forall (w : World) (item : SyncQueueItem) (msg : string),
    let w' := world_after (handleSyncError item msg) w in
    (stored_entry (q_id item) w = Some item ->
     if q_retry_count item + 1 <? 3 then
       stored_entry (q_id item) w' = Some (bump msg item) /\
       map q_id (sync_queue w') = map q_id (sync_queue w) /\
       dead_letter_queue w' = dead_letter_queue w /\
       tasks w' = tasks_marked (q_task_id item) error (tasks w)
     else
       (exists dl,
           dead_letter_queue w' = dead_letter_queue w ++ [dl] /\
           dl_task_id dl = q_task_id item /\
           dl_operation dl = q_operation item /\
           dl_data dl = q_data item /\
           dl_error_message dl = msg) /\
       (forall q, In q (sync_queue w') -> q_id q <> q_id item) /\
       tasks w' = tasks_marked (q_task_id item) failed (tasks w)) /\
    (stored_entry (q_id item) w = None ->
     if q_retry_count item + 1 <? 3 then
       sync_queue w' = sync_queue w /\
       dead_letter_queue w' = dead_letter_queue w /\
       tasks w' = tasks_marked (q_task_id item) error (tasks w)
     else
       (exists dl,
           dead_letter_queue w' = dead_letter_queue w ++ [dl] /\
           dl_task_id dl = q_task_id item /\
           dl_operation dl = q_operation item /\
           dl_data dl = q_data item /\
           dl_error_message dl = msg) /\
       sync_queue w' =
         filter (fun q => negb (q_task_id q =? q_task_id item)%string)
           (sync_queue w) /\
       tasks w' = tasks_marked (q_task_id item) failed (tasks w)).
Proof.
  intros w item msg w'. subst w'. unfold world_after.
  rewrite handleSyncError_tasks, handleSyncError_dead_letter_queue.
  split; intros Hstored.
  - assert (Hcur : current_retry item w = q_retry_count item)
      by (unfold current_retry; rewrite Hstored; reflexivity).
    unfold stored_entry in *. rewrite handleSyncError_sync_queue, Hcur.
    destruct (q_retry_count item + 1 <? 3) eqn:Hlt.
    + assert (Hge : (q_retry_count item + 1 >=? 3) = false)
        by (apply Z.ltb_lt in Hlt; rewrite Z.geb_leb; apply Z.leb_gt; lia).
      rewrite Hge. repeat split.
      * rewrite find_map_same_key, Hstored.
        -- cbn [option_map]. rewrite String.eqb_refl. reflexivity.
        -- intros q. destruct (q_id q =? q_id item)%string; reflexivity.
      * rewrite map_map. apply map_ext. intros q.
        destruct (q_id q =? q_id item)%string; reflexivity.
    + assert (Hge : (q_retry_count item + 1 >=? 3) = true)
        by (apply Z.ltb_ge in Hlt; rewrite Z.geb_leb; apply Z.leb_le; lia).
      rewrite Hge. repeat split.
      * eexists. repeat split.
      * intros q Hin Heq.
        apply filter_In in Hin as [Hin _]. apply filter_In in Hin as [_ Hne].
        rewrite Heq, String.eqb_refl in Hne. discriminate.
  - assert (Hcur : current_retry item w = q_retry_count item)
      by (unfold current_retry; rewrite Hstored; reflexivity).
    unfold stored_entry in Hstored. rewrite handleSyncError_sync_queue, Hcur.
    destruct (q_retry_count item + 1 <? 3) eqn:Hlt.
    + assert (Hge : (q_retry_count item + 1 >=? 3) = false)
        by (apply Z.ltb_lt in Hlt; rewrite Z.geb_leb; apply Z.leb_gt; lia).
      rewrite Hge. split; [|split; reflexivity].
      apply map_untouched_rows. exact Hstored.
    + assert (Hge : (q_retry_count item + 1 >=? 3) = true)
        by (apply Z.ltb_ge in Hlt; rewrite Z.geb_leb; apply Z.leb_le; lia).
      rewrite Hge. split; [eexists; repeat split|]. split; [|reflexivity].
      rewrite (filter_untouched_rows _ _ Hstored). reflexivity.
Qed.

(* ================================================================== *)
(** * Per-item outcomes *)
(* ================================================================== *)

Lemma getTask_world task_id w : snd (getTask task_id w) = w.
Proof. reflexivity. Qed.

Lemma tasks_marked_as_update task_id s w :
  tasks (snd (UPDATE_tasks (fun r => sql_eq (row_id r) (Some task_id))
                (set_row_status s) w)) =
  tasks_marked task_id s (tasks w).
Proof. reflexivity. Qed.


(* ================================================================== *)
(** * The conflict resolver *)
(* ================================================================== *)

Lemma inferOperationType_cases (t : Task) :
  (inferOperationType t = delete <-> is_deleted t = true) /\
  (inferOperationType t = create <->
     is_deleted t = false /\
     (created_at t = updated_at t \/
      exists v, version t = Some v /\ v <> 0 /\ v <= 1)) /\
  (inferOperationType t = update <->
     is_deleted t = false /\ created_at t <> updated_at t /\
     forall v, version t = Some v -> v = 0 \/ 1 < v).
Proof.
  unfold inferOperationType.
  destruct (is_deleted t); [repeat split; intros; try discriminate;
    try tauto; intuition discriminate|].
  destruct (Z.eqb_spec (created_at t) (updated_at t)) as [He|Hne].
  - rewrite orb_true_r. repeat split; intros; try discriminate; auto.
    intuition congruence.
  - rewrite orb_false_r. destruct (version t) as [v|].
    + destruct (Z.eqb_spec v 0) as [Hz|Hnz]; cbn [negb andb].
      * repeat split; intros; try discriminate; auto.
        -- destruct H as [_ [H|[v' [Hv [Hv0 _]]]]]; [contradiction|].
           inversion Hv; subst; contradiction.
        -- inversion H0; subst. left; reflexivity.
      * destruct (Z.leb_spec v 1) as [Hle|Hgt].
        -- repeat split; intros; try discriminate; auto.
           ++ right. exists v. auto.
           ++ destruct H as [_ [_ H]]. destruct (H v eq_refl); lia.
        -- repeat split; intros; try discriminate; auto.
           ++ destruct H as [_ [H|[v' [Hv [_ Hv1]]]]]; [contradiction|].
              inversion Hv; subst; lia.
           ++ inversion H0; subst. right; exact Hgt.
    + repeat split; intros; try discriminate; auto.
      destruct H as [_ [H|[v' [Hv _]]]]; [contradiction | discriminate].
Qed.

(** C2, as stated, fails: on an [updated_at] tie between a freshly
    created local task and a remote version whose version counter is 0
    (at most 1, so a create in the stated rule, and the local version
    would win the tie of equal priority), [resolveConflict] takes the
    remote version for an update and returns it. *)
Lemma resolveConflict_version_zero :
  updated_at Sample.fresh_local = updated_at Sample.remote_version_zero /\
  stated_kind Sample.fresh_local = create /\
  stated_kind Sample.remote_version_zero = create /\
  stated_winner Sample.fresh_local Sample.remote_version_zero
    = Sample.fresh_local /\
  resolveConflict Sample.fresh_local Sample.remote_version_zero
    = Sample.remote_version_zero /\
  resolveConflict Sample.fresh_local Sample.remote_version_zero
    <> stated_winner Sample.fresh_local Sample.remote_version_zero.
Proof. repeat split. vm_compute. discriminate. Qed.

(** C2, amended.  [resolveConflict] returns the version with the
    strictly later [updated_at]; on a tie it returns the local version
    when its inferred operation has priority at least that of the
    remote one, else the remote version, with priorities create 1,
    update 2, delete 3.  The inferred operation is delete when the
    delete flag is set; else create when [created_at] equals
    [updated_at] or the version counter is present, non-zero and at
    most 1; else update.  Two plain updates on a tie resolve to the
    local version.  The result depends on the two versions only. *)
Theorem resolveConflict_rule :
  forall localTask serverTask : Task,
    (updated_at serverTask < updated_at localTask ->
     resolveConflict localTask serverTask = localTask) /\
    (updated_at localTask < updated_at serverTask ->
     resolveConflict localTask serverTask = serverTask) /\
    (updated_at localTask = updated_at serverTask ->
     (OP_PRIORITY (inferOperationType serverTask)
        <= OP_PRIORITY (inferOperationType localTask) ->
      resolveConflict localTask serverTask = localTask) /\
     (OP_PRIORITY (inferOperationType localTask)
        < OP_PRIORITY (inferOperationType serverTask) ->
      resolveConflict localTask serverTask = serverTask) /\
     (inferOperationType localTask = update ->
      inferOperationType serverTask = update ->
      resolveConflict localTask serverTask = localTask)) /\
    (OP_PRIORITY create = 1 /\ OP_PRIORITY update = 2 /\
     OP_PRIORITY delete = 3) /\
    (forall t : Task,
        (inferOperationType t = delete <-> is_deleted t = true) /\
        (inferOperationType t = create <->
           is_deleted t = false /\
           (created_at t = updated_at t \/
            exists v, version t = Some v /\ v <> 0 /\ v <= 1)) /\
        (inferOperationType t = update <->
           is_deleted t = false /\ created_at t <> updated_at t /\
           forall v, version t = Some v -> v = 0 \/ 1 < v)).
Proof.
  intros l r. unfold resolveConflict.
  split; [|split; [|split; [|split]]].
  - intros H. destruct (Z.gtb_spec (updated_at l) (updated_at r)); [reflexivity | lia].
  - intros H. destruct (Z.gtb_spec (updated_at l) (updated_at r)); [lia|].
    destruct (Z.gtb_spec (updated_at r) (updated_at l)); [reflexivity | lia].
  - intros H.
    destruct (Z.gtb_spec (updated_at l) (updated_at r)); [lia|].
    destruct (Z.gtb_spec (updated_at r) (updated_at l)); [lia|].
    rewrite Z.geb_leb.
    destruct (Z.leb_spec (OP_PRIORITY (inferOperationType r))
                (OP_PRIORITY (inferOperationType l))) as [Hle|Hgt].
    + repeat split; intros; try reflexivity; lia.
    + split; [intros; lia|]. split; [reflexivity|].
      intros Hl Hr. rewrite Hl, Hr in Hgt. lia.
  - repeat split.
  - exact inferOperationType_cases.
Qed.

(** The amended rule at a tie of two plain updates. *)
Lemma resolveConflict_rule_witness :
  updated_at Sample.updated_local = updated_at Sample.updated_remote /\
  inferOperationType Sample.updated_local = update /\
  inferOperationType Sample.updated_remote = update /\
  resolveConflict Sample.updated_local Sample.updated_remote
    = Sample.updated_local.
Proof.
  assert (Htie : updated_at Sample.updated_local
                 = updated_at Sample.updated_remote) by reflexivity.
  assert (Hl : inferOperationType Sample.updated_local = update)
    by reflexivity.
  assert (Hr : inferOperationType Sample.updated_remote = update)
    by reflexivity.
  split; [exact Htie|]. split; [exact Hl|]. split; [exact Hr|].
  exact (proj2 (proj2 (proj1 (proj2 (proj2
           (resolveConflict_rule Sample.updated_local Sample.updated_remote)))
           Htie)) Hl Hr).
Defined.

(* ================================================================== *)
(** * The canonical order *)
(* ================================================================== *)

Section SortByComparator.

Context {A : Type} (cmp : A -> A -> Z) (le : A -> A -> Prop).
Hypothesis cmp_le : forall a b, cmp a b <= 0 -> le a b.
Hypothesis cmp_gt : forall a b, 0 < cmp a b -> le b a.

Lemma sort_insert_Permutation (x : A) (l : list A) :
  Permutation (x :: l) (sort_insert cmp x l).
Proof.
  induction l as [|y l IH]; cbn [sort_insert]; [reflexivity|].
  destruct (cmp x y <=? 0); [reflexivity|].
  rewrite perm_swap. apply perm_skip. exact IH.
Qed.

Lemma array_sort_Permutation (l : list A) :
  Permutation l (array_sort cmp l).
Proof.
  induction l as [|x l IH]; cbn [array_sort fold_right]; [reflexivity|].
  rewrite <- sort_insert_Permutation. apply perm_skip. exact IH.
Qed.

Lemma sort_insert_HdRel (x y : A) (l : list A) :
  le y x -> HdRel le y l -> HdRel le y (sort_insert cmp x l).
Proof.
  intros Hyx Hhd. destruct l as [|z l]; cbn [sort_insert].
  - constructor. exact Hyx.
  - destruct (cmp x z <=? 0); constructor; [exact Hyx|].
    inversion Hhd; assumption.
Qed.

Lemma sort_insert_Sorted (x : A) (l : list A) :
  Sorted le l -> Sorted le (sort_insert cmp x l).
Proof.
  induction l as [|y l IH]; intros Hs; cbn [sort_insert].
  - repeat constructor.
  - destruct (Z.leb_spec (cmp x y) 0) as [Hle|Hgt].
    + constructor; [exact Hs|]. constructor. apply cmp_le. exact Hle.
    + inversion Hs as [|? ? Hs' Hhd]; subst. constructor.
      * apply IH. exact Hs'.
      * apply sort_insert_HdRel; [apply cmp_gt; exact Hgt | exact Hhd].
Qed.

Lemma array_sort_Sorted (l : list A) : Sorted le (array_sort cmp l).
Proof.
  induction l as [|x l IH]; cbn [array_sort fold_right].
  - constructor.
  - apply sort_insert_Sorted. exact IH.
Qed.

End SortByComparator.

Lemma str_lt_true (a b : string) :
  str_lt a b = true <-> String_as_OT.lt a b.
Proof.
  unfold str_lt, String_as_OT.lt.
  destruct (String_as_OT.compare a b); split; intros; congruence.
Qed.

Lemma str_lt_false (a b : string) :
  a <> b -> str_lt a b = false -> String_as_OT.lt b a.
Proof.
  unfold str_lt. intros Hne Hlt.
  destruct (String_as_OT.compare_spec a b) as [Heq|Hab|Hba];
    [contradiction | discriminate | exact Hba].
Qed.

Lemma OP_PRIORITY_le (a b : Operation) :
  OP_PRIORITY a <= OP_PRIORITY b <-> op_le a b.
Proof. destruct a, b; cbn; split; intros; try lia; tauto. Qed.

Lemma compareItems_le (a b : SyncQueueItem) :
  compareItems a b <= 0 -> canonical_le a b.
Proof.
  unfold compareItems, canonical_le.
  destruct (String.eqb_spec (q_task_id a) (q_task_id b)) as [Heq|Hne];
    cbn [negb].
  - destruct (Z.eqb_spec (q_created_at a) (q_created_at b)) as [Ht|Ht];
      cbn [negb]; intros H; right; split; auto.
    + right. split; [exact Ht|]. apply OP_PRIORITY_le. lia.
    + left. lia.
  - destruct (str_lt (q_task_id a) (q_task_id b)) eqn:Hlt; intros H; [|lia].
    left. apply str_lt_true. exact Hlt.
Qed.

Lemma compareItems_gt (a b : SyncQueueItem) :
  0 < compareItems a b -> canonical_le b a.
Proof.
  unfold compareItems, canonical_le.
  destruct (String.eqb_spec (q_task_id a) (q_task_id b)) as [Heq|Hne];
    cbn [negb].
  - destruct (Z.eqb_spec (q_created_at a) (q_created_at b)) as [Ht|Ht];
      cbn [negb]; intros H; right; split; auto.
    + right. split; [auto|]. apply OP_PRIORITY_le. lia.
    + left. lia.
  - destruct (str_lt (q_task_id a) (q_task_id b)) eqn:Hlt; intros H; [lia|].
    left. apply str_lt_false; assumption.
Qed.

Lemma op_le_trans (a b c : Operation) : op_le a b -> op_le b c -> op_le a c.
Proof. destruct a, b, c; cbn; tauto. Qed.

Lemma canonical_le_trans : Transitive canonical_le.
Proof.
  intros a b c Hab Hbc. unfold canonical_le in *.
  destruct Hab as [Hab|[Eab Hab]], Hbc as [Hbc|[Ebc Hbc]].
  - left. etransitivity; eassumption.
  - left. rewrite <- Ebc. exact Hab.
  - left. rewrite Eab. exact Hbc.
  - right. split; [congruence|].
    destruct Hab as [Hab|[Tab Oab]], Hbc as [Hbc|[Tbc Obc]];
      try (left; lia).
    right. split; [lia | eapply op_le_trans; eassumption].
Qed.

Lemma canonical_le_same_task (a b : SyncQueueItem) :
  canonical_le a b -> q_task_id a = q_task_id b ->
  q_created_at a <= q_created_at b /\
  (q_created_at a = q_created_at b -> op_le (q_operation a) (q_operation b)).
Proof.
  intros [Hlt|[_ H]] Heq.
  - exfalso. rewrite Heq in Hlt.
    exact (StrictOrder_Irreflexive (R := String_as_OT.lt) _ Hlt).
  - destruct H as [H|[H1 H2]]; split; try lia; auto.
Qed.

Lemma StronglySorted_nth {A} (R : A -> A -> Prop) (l : list A) :
  StronglySorted R l ->
  forall (i j : nat) (a b : A),
    (i < j)%nat -> nth_error l i = Some a -> nth_error l j = Some b -> R a b.
Proof.
  induction 1 as [|x l Hs IH Hall]; intros i j a b Hij Ha Hb.
  - destruct i; discriminate.
  - destruct j as [|j]; [lia|]. cbn in Hb. destruct i as [|i].
    + cbn in Ha. inversion Ha; subst.
      rewrite Forall_forall in Hall. apply Hall.
      eapply nth_error_In; eassumption.
    + cbn in Ha. eapply IH; [|eassumption|eassumption]. lia.
Qed.

Lemma insert_by_created_at_Permutation x l :
  Permutation (x :: l) (insert_by_created_at x l).
Proof.
  induction l as [|y l IH]; cbn [insert_by_created_at]; [reflexivity|].
  destruct (q_created_at x <? q_created_at y); [reflexivity|].
  rewrite perm_swap. apply perm_skip. exact IH.
Qed.

Lemma SELECT_sync_queue_Permutation w :
  Permutation (sync_queue w) (fst (SELECT_sync_queue w)).
Proof.
  unfold SELECT_sync_queue. cbn [fst].
  assert (H : forall l acc,
    Permutation (acc ++ l)
      (fold_left (fun acc x => insert_by_created_at x acc) l acc)).
  { induction l as [|x l IH]; intros acc; cbn [fold_left].
    - rewrite app_nil_r. reflexivity.
    - rewrite <- IH. rewrite <- insert_by_created_at_Permutation.
      rewrite <- Permutation_middle. reflexivity. }
  apply (H (sync_queue w) []).
Qed.

(** The entries of a pass in the order in which it batches them. *)
Lemma slices_concat {A} (size : nat) (l : list A) :
  (0 < size)%nat ->
  forall fuel, (List.length l <= fuel)%nat -> List.concat (slices fuel size l) = l.
Proof.
  intros Hsize fuel. revert l.
  induction fuel as [|fuel IH]; intros l Hlen.
  - destruct l; [reflexivity | cbn in Hlen; lia].
  - destruct l as [|x l]; [reflexivity|].
    cbn [slices List.concat]. rewrite IH.
    + apply firstn_skipn.
    + rewrite length_skipn. cbn [List.length] in *. lia.
Qed.

Lemma batches_concat {A} (size : positive) (l : list A) :
  List.concat (batches size l) = l.
Proof. apply slices_concat; [lia | reflexivity]. Qed.

(** C3.  The order the pass imposes before batching: the sorted list
    is a rearrangement of the entries, every entry precedes every later
    one in the canonical order (task identity lexicographically, then
    enqueue timestamp, then create before update before delete), so
    entries of one task appear with non-decreasing enqueue timestamps
    and, at equal timestamps, in operation order.  The pass sorts the
    rows of the queue this way and its batches, laid end to end, are
    the sorted list. *)
Theorem sync_canonical_order :
  forall entries : list SyncQueueItem,
    let sorted := array_sort compareItems entries in
    Permutation entries sorted /\
    StronglySorted canonical_le sorted /\
    (forall (i j : nat) (a b : SyncQueueItem),
        (i < j)%nat ->
        nth_error sorted i = Some a -> nth_error sorted j = Some b ->
        q_task_id a = q_task_id b ->
        q_created_at a <= q_created_at b /\
        (q_created_at a = q_created_at b ->
         op_le (q_operation a) (q_operation b))) /\
    (forall (cfg : Config) (w : World),
        Permutation (sync_queue w) (result_of SELECT_sync_queue w) /\
        List.concat (batches (SYNC_BATCH_SIZE cfg)
                  (array_sort compareItems (result_of SELECT_sync_queue w)))
          = array_sort compareItems (result_of SELECT_sync_queue w) /\
        sync cfg w =
          fold_M (syncBatch cfg)
            (batches (SYNC_BATCH_SIZE cfg)
               (array_sort compareItems (result_of SELECT_sync_queue w)))
            initial_result w).
Proof.
  intros entries sorted.
  assert (Hsorted : StronglySorted canonical_le sorted).
  { apply Sorted_StronglySorted; [exact canonical_le_trans|].
    apply array_sort_Sorted; [exact compareItems_le | exact compareItems_gt]. }
  split; [apply array_sort_Permutation|].
  split; [exact Hsorted|]. split.
  - intros i j a b Hij Ha Hb Htask.
    apply canonical_le_same_task; [|exact Htask].
    eapply StronglySorted_nth; eassumption.
  - intros cfg w. split; [apply SELECT_sync_queue_Permutation|].
    split; [apply batches_concat | reflexivity].
Qed.

(* ================================================================== *)
(** * The batch checksum *)
(* ================================================================== *)

Lemma to_int32_shift (z k : Z) : to_int32 (z + k * 4294967296) = to_int32 z.
Proof.
  unfold to_int32.
  replace (z + k * 4294967296 + 2147483648)
    with (z + 2147483648 + k * 4294967296) by lia.
  rewrite Z_mod_plus_full. reflexivity.
Qed.

Lemma to_int32_decompose (z : Z) :
  exists k, to_int32 z = z + k * 4294967296.
Proof.
  exists (- ((z + 2147483648) / 4294967296)). unfold to_int32.
  pose proof (Z_div_mod_eq_full (z + 2147483648) 4294967296). lia.
Qed.

Lemma checksum_step (hash chr : Z) :
  or0 (shl5 hash - hash + chr) = to_int32 (hash * 31 + chr).
Proof.
  unfold or0, shl5. rewrite Z.lor_0_r, Z.shiftl_mul_pow2 by lia.
  destruct (to_int32_decompose hash) as [k ->].
  destruct (to_int32_decompose ((hash + k * 4294967296) * 2 ^ 5)) as [k' ->].
  replace ((hash + k * 4294967296) * 2 ^ 5 + k' * 4294967296 - hash + chr)
    with (hash * 31 + chr + (32 * k + k') * 4294967296) by lia.
  apply to_int32_shift.
Qed.

Lemma checksum_loop_fold (data : string) (hash : Z) :
  checksum_loop data hash =
  fold_left (fun h c => to_int32 (h * 31 + charCode c))
    (list_ascii_of_string data) hash.
Proof.
  revert hash. induction data as [|c data IH]; intros hash;
    cbn [checksum_loop list_ascii_of_string fold_left]; [reflexivity|].
  rewrite checksum_step. apply IH.
Qed.

Lemma join_concat (sep : string) (l : list string) :
  join sep l = String.concat sep l.
Proof.
  induction l as [|s l IH]; [reflexivity|].
  destruct l as [|s' l]; [reflexivity|].
  cbn [join String.concat] in *. rewrite IH. reflexivity.
Qed.

Lemma calculateChecksum_stated (batch : list SyncQueueItem) :
  calculateChecksum batch = stated_checksum batch.
Proof.
  unfold calculateChecksum, stated_checksum, rolling_hash, checksum_data.
  rewrite checksum_loop_fold, join_concat. reflexivity.
Qed.

Lemma to_int32_range (z : Z) : -2147483648 <= to_int32 z < 2147483648.
Proof.
  unfold to_int32.
  pose proof (Z.mod_pos_bound (z + 2147483648) 4294967296). lia.
Qed.

Lemma rolling_hash_range (data : string) :
  -2147483648 <= rolling_hash data < 2147483648.
Proof.
  unfold rolling_hash.
  assert (H : forall l h, -2147483648 <= h < 2147483648 ->
    -2147483648 <=
      fold_left (fun h c => to_int32 (h * 31 + charCode c)) l h
    < 2147483648).
  { induction l as [|c l IH]; intros h Hh; cbn [fold_left]; [exact Hh|].
    apply IH. apply to_int32_range. }
  apply H. lia.
Qed.

(** C7, as stated, fails: the two orders of two entries for different
    tasks give the same checksum. *)
Lemma calculateChecksum_reorder_collision :
  Sample.colliding_a <> Sample.colliding_b /\
  item_string Sample.colliding_a <> item_string Sample.colliding_b /\
  calculateChecksum [Sample.colliding_a; Sample.colliding_b] = "1946205084" /\
  calculateChecksum [Sample.colliding_b; Sample.colliding_a] = "1946205084".
Proof.
  split; [discriminate|].
  split; [vm_compute; discriminate|].
  split; vm_compute; reflexivity.
Qed.

(** C7, amended.  The checksum of a batch is the base-10 string of the
    32-bit signed integer obtained by folding the '|'-joined
    'taskId:operation:isoTimestamp' strings, in batch order, with
    [h -> h*31 + charCode] wrapped to 32 bits; batches with the same
    sequence of such strings have the same checksum, so the same
    ordered batch always yields the same checksum.  (Nothing is said
    about reordered batches: their checksums may coincide.) *)
Theorem calculateChecksum_rolling_hash :
  forall batch : list SyncQueueItem,
    calculateChecksum batch =
      int_toString (rolling_hash (String.concat "|" (map item_string batch))) /\
    -2147483648
      <= rolling_hash (String.concat "|" (map item_string batch))
      < 2147483648 /\
    (forall batch' : list SyncQueueItem,
        map item_string batch' = map item_string batch ->
        calculateChecksum batch' = calculateChecksum batch).
Proof.
  intros batch. split; [apply calculateChecksum_stated|].
  split; [apply rolling_hash_range|].
  intros batch' Heq. rewrite !calculateChecksum_stated.
  unfold stated_checksum. rewrite Heq. reflexivity.
Qed.

(* ================================================================== *)
(** * Local mutations *)
(* ================================================================== *)

(** [updateTask] never changes a stored row: the WHERE clause of its
    statement compares [id] with an unbound parameter. *)
Lemma updateTask_tasks_unchanged task_id updates w :
  tasks (world_after (updateTask task_id updates) w) = tasks w.
Proof.
  unfold world_after, updateTask. rewrite bind_run, getTask_world.
  destruct (fst (getTask task_id w)) as [existing|]; [|reflexivity].
  run. exact (map_id (tasks w)).
Qed.

Lemma createTask_persists taskData w :
  let t := clock w (clock_reads w) in
  let w' := world_after (createTask taskData) w in
  let task := result_of (createTask taskData) w in
  sync_status task = Some pending /\
  created_at task = t /\ updated_at task = t /\
  tasks w' =
    tasks w ++
    [mkTaskRow (id task) (title task) (description task) (completed task)
       t t false pending None None (version_default w)] /\
  sync_queue w' =
    sync_queue w ++
    [mkItem (uuid_source w (S (uuids_drawn w))) (id task) create
       (partial_of_task task) (clock w (S (clock_reads w))) 0 None].
Proof. repeat split. Qed.

Lemma deleteTask_persists task_id w existing :
  result_of (getTask task_id) w = Some existing ->
  let t := clock w (clock_reads w) in
  let w' := world_after (deleteTask task_id) w in
  List.length (tasks w') = List.length (tasks w) /\
  (forall r, In r (tasks w') -> row_id r = task_id ->
     row_is_deleted r = true /\ row_sync_status r = pending /\
     row_updated_at r = t) /\
  exists e, sync_queue w' = sync_queue w ++ [e] /\
            q_task_id e = task_id /\ q_operation e = delete /\
            q_retry_count e = 0.
Proof.
  intros Hget t w'. subst t w'.
  unfold world_after, result_of, deleteTask in *.
  rewrite bind_run, getTask_world, Hget. run.
  split; [apply length_map|]. split.
  - intros r Hin Hid. apply in_map_iff in Hin as [r0 [Hr0 _]].
    destruct (row_id r0 =? task_id)%string eqn:E.
    + subst r. cbn. auto.
    + subst r. apply String.eqb_neq in E. contradiction.
  - eexists. split; [reflexivity|]. cbn. auto.
Qed.

(** C8 (defect in [updateTask]).  An update of a stored, synced task
    returns a task marked pending with a refreshed [updated_at] and
    enqueues one update entry, but the stored row keeps its old
    [sync_status] and [updated_at]. *)
Theorem updateTask_does_not_persist :
  let updates :=
    mkPartialTask None (Some "Buy oat milk") None None None None None None
      None None None in
  let returned := result_of (updateTask "a" updates) Sample.synced_world in
  let w' := world_after (updateTask "a" updates) Sample.synced_world in
  option_map sync_status returned = Some (Some pending) /\
  option_map updated_at returned = Some (Sample.t0 + 5000) /\
  option_map title returned = Some "Buy oat milk" /\
  map q_operation (sync_queue w') = [update] /\
  map q_task_id (sync_queue w') = ["a"] /\
  tasks w' = [Sample.row "a" synced] /\
  map row_sync_status (tasks w') = [synced] /\
  map row_updated_at (tasks w') = [Sample.t0 + 1000] /\
  map row_title (tasks w') = ["Buy milk"].
Proof. vm_compute. repeat split. Qed.

(* ================================================================== *)
(** * Success outcomes *)
(* ================================================================== *)

Lemma success_outcome_effect cfg res result w :
  status res = success ->
  let w' := world_after (processItem cfg res result) w in
  result_of (processItem cfg res result) w = count_synced result /\
  sync_queue w' =
    filter (fun q => negb (q_task_id q =? client_id res)%string)
      (sync_queue w) /\
  List.length (tasks w') = List.length (tasks w) /\
  (forall r, In r (tasks w') -> row_id r = client_id res ->
     row_sync_status r = synced /\
     row_last_synced_at r = Some (clock w (clock_reads w))).
Proof.
  intros Hst w'. subst w'. unfold world_after, result_of, processItem.
  rewrite Hst. rewrite bind_run. cbn [ret fst snd].
  rewrite updateSyncStatus_sync_queue.
  split; [reflexivity|]. split; [reflexivity|]. run.
  split; [apply length_map|].
  intros r Hin Hid. apply in_map_iff in Hin as [r0 [Hr0 _]].
  destruct (row_id r0 =? client_id res)%string eqn:E.
  - subst r. cbn. auto.
  - subst r. apply String.eqb_neq in E. contradiction.
Qed.

(** The identity a success outcome carries in its own [server_id] is
    not read: only the [server_id] of [resolved_data] reaches the row. *)
Lemma success_outcome_server_id cfg res result w :
  status res = success ->
  tasks (world_after (processItem cfg res result) w) =
  map (fun r =>
         if (row_id r =? client_id res)%string then
           mkTaskRow (row_id r) (row_title r) (row_description r)
             (row_completed r) (row_created_at r) (row_updated_at r)
             (row_is_deleted r) synced
             (match resolved_data res with
              | Some d =>
                  match str_or_null (server_id d) with
                  | Some s => Some s
                  | None => row_server_id r
                  end
              | None => row_server_id r
              end)
             (Some (clock w (clock_reads w))) (row_version r)
         else r)
    (tasks w).
Proof.
  intros Hst. unfold world_after, processItem. rewrite Hst.
  rewrite bind_run. cbn [ret snd]. run. apply map_ext. intros r.
  destruct (row_id r =? client_id res)%string; [|reflexivity].
  destruct (resolved_data res) as [d|]; [|reflexivity].
  destruct (str_or_null (server_id d)); reflexivity.
Qed.

(** C6 (defect in the success branch).  The outcome for task "a"
    carries the remote-assigned identity "srv_42"; after it is
    processed the task is synced, stamped, and has no queue entries,
    but its [server_id] is still absent. *)
Theorem success_outcome_drops_server_id :
  let w := Sample.pending_world in
  let w' :=
    world_after
      (processItem Sample.cfg Sample.accepted_outcome initial_result) w in
  status Sample.accepted_outcome = success /\
  pi_server_id Sample.accepted_outcome = Some "srv_42" /\
  map row_id (tasks w') = ["a"] /\
  map row_sync_status (tasks w') = [synced] /\
  map row_last_synced_at (tasks w') = [Some (Sample.t0 + 5000)] /\
  sync_queue w' = [] /\
  map row_server_id (tasks w') = [None] /\
  map row_server_id (tasks (world_after (sync Sample.cfg) w)) = [None].
Proof. vm_compute. repeat split. Qed.

(* ================================================================== *)
(** * Instances *)
(* ================================================================== *)

(** The failure handler on the first failure of a stored entry. *)
Lemma handleSyncError_retry_or_dead_letter_witness :
  stored_entry (q_id Sample.queued_entry) Sample.pending_world
    = Some Sample.queued_entry /\
  stored_entry (q_id Sample.queued_entry)
    (world_after (handleSyncError Sample.queued_entry "Network Error")
       Sample.pending_world)
    = Some (bump "Network Error" Sample.queued_entry).
Proof.
  split; [reflexivity|].
  pose proof (proj1 (handleSyncError_retry_or_dead_letter
                       Sample.pending_world Sample.queued_entry
                       "Network Error") eq_refl) as H.
  cbv beta zeta in H.
  change (q_retry_count Sample.queued_entry + 1 <? 3) with true in H.
  cbv iota in H. exact (proj1 H).
Defined.


(* ================================================================== *)
(** * Failed batches *)
(* ================================================================== *)

Lemma handleSyncError_net_eq item msg w :
  net (snd (handleSyncError item msg w)) = net w.
Proof.
  unfold net. destruct (handleSyncError_net item msg w) as [-> [-> ->]].
  reflexivity.
Qed.

Lemma failItem_result msg item result w :
  exists timestamp,
    fst (failItem msg item result w) =
    count_failed
      (mkSyncError (q_task_id item) (operation_name (q_operation item))
         msg timestamp) result.
Proof. eexists. reflexivity. Qed.

Lemma failItem_tables msg item result w :
  sync_queue (snd (failItem msg item result w))
    = sync_queue (snd (handleSyncError item msg w)) /\
  dead_letter_queue (snd (failItem msg item result w))
    = dead_letter_queue (snd (handleSyncError item msg w)) /\
  tasks (snd (failItem msg item result w))
    = tasks (snd (handleSyncError item msg w)) /\
  net (snd (failItem msg item result w))
    = net (snd (handleSyncError item msg w)).
Proof. repeat split. Qed.

Lemma current_retry_untouched item w :
  untouched w item -> current_retry item w = q_retry_count item.
Proof.
  intros Hun. unfold current_retry, stored_entry.
  destruct (find _ (sync_queue w)) as [q|] eqn:Hfind; [|reflexivity].
  apply find_some in Hfind as [Hin Hid].
  apply String.eqb_eq in Hid. rewrite (Hun q Hin Hid). reflexivity.
Qed.

(** Where the rows of the queue come from after the handler has run
    on [j]. *)
Lemma handleSyncError_rows j msg w q' :
  In q' (sync_queue (snd (handleSyncError j msg w))) ->
  (q_id q' <> q_id j /\ In q' (sync_queue w)) \/
  (q_id q' = q_id j /\ current_retry j w + 1 < 3 /\
   exists q, In q (sync_queue w) /\ q_id q = q_id j /\
     q' = mkItem (q_id q) (q_task_id q) (q_operation q) (q_data q)
            (q_created_at q) (current_retry j w + 1) (Some msg)).
Proof.
  rewrite handleSyncError_sync_queue. rewrite Z.geb_leb.
  destruct (Z.leb_spec 3 (current_retry j w + 1)) as [Hge|Hlt]; intros Hin.
  - apply filter_In in Hin as [Hin _]. apply filter_In in Hin as [Hin Hne].
    left. split; [|exact Hin].
    intros Heq. rewrite Heq, String.eqb_refl in Hne. discriminate.
  - apply in_map_iff in Hin as [q [Hq Hin]].
    destruct (String.eqb_spec (q_id q) (q_id j)) as [Heq|Hne].
    + right. subst q'. cbn [q_id]. split; [exact Heq|]. split; [exact Hlt|].
      exists q. auto.
    + left. subst q'. auto.
Qed.

Lemma handleSyncError_untouched j msg w i :
  q_id i <> q_id j -> untouched w i ->
  untouched (snd (handleSyncError j msg w)) i.
Proof.
  intros Hne Hun q' Hin Hid.
  destruct (handleSyncError_rows j msg w q' Hin) as [[_ Hold]|[Hj _]].
  - exact (Hun q' Hold Hid).
  - congruence.
Qed.

Lemma handleSyncError_archived_mono j msg msg' w i :
  archived msg' w i -> archived msg' (snd (handleSyncError j msg w)) i.
Proof.
  intros [dl [Hin Hdl]]. exists dl. split; [|exact Hdl].
  rewrite handleSyncError_dead_letter_queue.
  destruct (current_retry j w + 1 >=? 3); [apply in_or_app; left|]; exact Hin.
Qed.

Lemma handleSyncError_handled_other j msg w i :
  q_id i <> q_id j -> handled msg w i ->
  handled msg (snd (handleSyncError j msg w)) i.
Proof.
  intros Hne [Hrows Harch]. split.
  - intros q' Hin Hid.
    destruct (handleSyncError_rows j msg w q' Hin) as [[_ Hold]|[Hj _]].
    + exact (Hrows q' Hold Hid).
    + congruence.
  - intros Hge. apply handleSyncError_archived_mono. exact (Harch Hge).
Qed.

Lemma handleSyncError_handled j msg w :
  untouched w j -> handled msg (snd (handleSyncError j msg w)) j.
Proof.
  intros Hun. pose proof (current_retry_untouched j w Hun) as Hcur. split.
  - intros q' Hin Hid.
    destruct (handleSyncError_rows j msg w q' Hin)
      as [[Hne _]|[_ [Hlt [q [Hq [Hqid ->]]]]]]; [contradiction|].
    rewrite Hcur in *. rewrite (Hun q Hq Hqid). split; [reflexivity | exact Hlt].
  - intros Hge. unfold archived.
    rewrite handleSyncError_dead_letter_queue, Hcur.
    destruct (Z.geb_spec (q_retry_count j + 1) 3) as [_|Hlt]; [|lia].
    eexists. split; [apply in_or_app; right; left; reflexivity|].
    repeat split.
Qed.

Lemma fold_M_cons {A S} (f : A -> S -> M S) x rest s w :
  fold_M f (x :: rest) s w = fold_M f rest (fst (f x s w)) (snd (f x s w)).
Proof. reflexivity. Qed.

Lemma untouched_tables w1 w2 i :
  sync_queue w1 = sync_queue w2 -> untouched w1 i -> untouched w2 i.
Proof. unfold untouched. intros <-. auto. Qed.

Lemma handled_tables msg w1 w2 i :
  sync_queue w1 = sync_queue w2 ->
  dead_letter_queue w1 = dead_letter_queue w2 ->
  handled msg w1 i -> handled msg w2 i.
Proof. unfold handled, archived. intros <- <-. auto. Qed.

Lemma fold_failItem_result msg batch :
  forall result w,
    let r' := fst (fold_M (failItem msg) batch result w) in
    map error_key (errors r') =
      map error_key (errors result) ++ map (failure_key msg) batch /\
    (exists new, errors r' = errors result ++ new /\
                 List.length new = List.length batch) /\
    failed_items r' = failed_items result + Z.of_nat (List.length batch) /\
    synced_items r' = synced_items result /\
    r_success r' = r_success result.
Proof.
  induction batch as [|x rest IH]; intros result w r'; subst r'.
  - cbn. rewrite app_nil_r. repeat split; try lia.
    exists []. rewrite app_nil_r. auto.
  - rewrite fold_M_cons.
    destruct (failItem_result msg x result w) as [ts ->].
    destruct (IH (count_failed
                    (mkSyncError (q_task_id x)
                       (operation_name (q_operation x)) msg ts) result)
                 (snd (failItem msg x result w)))
      as [Hkeys [[new [Hnew Hlen]] [Hfailed [Hsynced Hsucc]]]].
    cbn [count_failed errors failed_items synced_items r_success] in *.
    split; [|split; [|split; [|split]]].
    + rewrite Hkeys, map_app, <- app_assoc. reflexivity.
    + eexists. rewrite Hnew, <- app_assoc. split; [reflexivity|].
      cbn [List.length app]. rewrite Hlen. reflexivity.
    + rewrite Hfailed. cbn [List.length]. lia.
    + exact Hsynced.
    + exact Hsucc.
Qed.

Lemma fold_failItem_net msg batch :
  forall result w, net (snd (fold_M (failItem msg) batch result w)) = net w.
Proof.
  induction batch as [|x rest IH]; intros result w; [reflexivity|].
  rewrite fold_M_cons, IH.
  destruct (failItem_tables msg x result w) as [_ [_ [_ ->]]].
  apply handleSyncError_net_eq.
Qed.

Lemma failItem_untouched msg j result w i :
  q_id i <> q_id j -> untouched w i ->
  untouched (snd (failItem msg j result w)) i.
Proof.
  intros Hne Hun.
  destruct (failItem_tables msg j result w) as [Hq _].
  eapply untouched_tables; [symmetry; exact Hq|].
  apply handleSyncError_untouched; assumption.
Qed.

Lemma failItem_handled_other msg j result w i :
  q_id i <> q_id j -> handled msg w i ->
  handled msg (snd (failItem msg j result w)) i.
Proof.
  intros Hne Hh.
  destruct (failItem_tables msg j result w) as [Hq [Hd _]].
  eapply handled_tables; [symmetry; exact Hq | symmetry; exact Hd|].
  apply handleSyncError_handled_other; assumption.
Qed.

Lemma failItem_handled msg j result w :
  untouched w j -> handled msg (snd (failItem msg j result w)) j.
Proof.
  intros Hun.
  destruct (failItem_tables msg j result w) as [Hq [Hd _]].
  eapply handled_tables; [symmetry; exact Hq | symmetry; exact Hd|].
  apply handleSyncError_handled; assumption.
Qed.

Lemma fold_failItem_others msg batch :
  forall result w i,
    (forall j, In j batch -> q_id i <> q_id j) ->
    (untouched w i ->
     untouched (snd (fold_M (failItem msg) batch result w)) i) /\
    (handled msg w i ->
     handled msg (snd (fold_M (failItem msg) batch result w)) i).
Proof.
  induction batch as [|x rest IH]; intros result w i Hids; [split; auto|].
  rewrite fold_M_cons.
  assert (Hx : q_id i <> q_id x) by (apply Hids; left; reflexivity).
  assert (Hrest : forall j, In j rest -> q_id i <> q_id j)
    by (intros j Hj; apply Hids; right; exact Hj).
  destruct (IH (fst (failItem msg x result w))
              (snd (failItem msg x result w)) i Hrest) as [IHu IHh].
  split; intros H.
  - apply IHu. apply failItem_untouched; assumption.
  - apply IHh. apply failItem_handled_other; assumption.
Qed.

Lemma fold_failItem_handled msg batch :
  forall result w,
    NoDup (map q_id batch) ->
    (forall i, In i batch -> untouched w i) ->
    forall i, In i batch ->
      handled msg (snd (fold_M (failItem msg) batch result w)) i.
Proof.
  induction batch as [|x rest IH]; intros result w Hnd Hun i Hin;
    [contradiction|].
  rewrite fold_M_cons. cbn [map] in Hnd. inversion Hnd as [|? ? Hnotin Hnd'];
    subst.
  assert (Hdiff : forall j, In j rest -> q_id x <> q_id j).
  { intros j Hj Heq. apply Hnotin. rewrite Heq. apply in_map. exact Hj. }
  destruct Hin as [<-|Hin].
  - apply (fold_failItem_others msg rest _ _ x Hdiff).
    apply failItem_handled. apply Hun. left; reflexivity.
  - apply IH; [exact Hnd'| |exact Hin].
    intros j Hj. apply failItem_untouched.
    + intros Heq. exact (Hdiff j Hj (eq_sym Heq)).
    + apply Hun. right; exact Hj.
Qed.

Lemma markTasksInProgress_frame taskIds w :
  sync_queue (snd (markTasksInProgress taskIds w)) = sync_queue w /\
  dead_letter_queue (snd (markTasksInProgress taskIds w))
    = dead_letter_queue w /\
  net (snd (markTasksInProgress taskIds w)) = net w.
Proof. destruct taskIds; repeat split. Qed.

Lemma processBatch_frame batch w :
  tasks (snd (processBatch batch w)) = tasks w /\
  sync_queue (snd (processBatch batch w)) = sync_queue w /\
  dead_letter_queue (snd (processBatch batch w)) = dead_letter_queue w /\
  health (snd (processBatch batch w)) = health w /\
  probes (snd (processBatch batch w)) = S (probes w).
Proof.
  unfold processBatch. rewrite !bind_run.
  change (fst (checkConnectivity (snd (now w)))) with (health w (probes w)).
  destruct (health w (probes w)); repeat split.
Qed.

Lemma processBatch_unreachable batch w :
  health w (probes w) = false ->
  fst (processBatch batch w) = inl (ThrownError "Server not reachable") /\
  posted (snd (processBatch batch w)) = posted w.
Proof.
  intros Hoff. unfold processBatch. rewrite !bind_run.
  change (fst (checkConnectivity (snd (now w)))) with (health w (probes w)).
  rewrite Hoff. split; reflexivity.
Qed.

Lemma updateSyncStatus_net_eq taskId st sd w :
  net (snd (updateSyncStatus taskId st sd w)) = net w.
Proof.
  unfold net. destruct (updateSyncStatus_net taskId st sd w) as [-> [-> ->]].
  reflexivity.
Qed.

Lemma updateTask_net_eq task_id updates w :
  net (snd (updateTask task_id updates w)) = net w.
Proof.
  unfold updateTask. rewrite bind_run, getTask_world.
  destruct (fst (getTask task_id w)); reflexivity.
Qed.

Lemma processItem_net cfg res result w :
  net (snd (processItem cfg res result w)) = net w.
Proof.
  unfold processItem.
  destruct (status res); [| |reflexivity].
  - rewrite bind_run. cbn [ret snd]. apply updateSyncStatus_net_eq.
  - destruct (resolved_data res) as [serverTask|]; [|reflexivity].
    rewrite bind_run.
    assert (Hw : snd ((if taskService cfg then getTask (client_id res)
                       else ret None) w) = w)
      by (destruct (taskService cfg); reflexivity).
    rewrite Hw.
    destruct (fst ((if taskService cfg then getTask (client_id res)
                    else ret None) w)) as [localTask|]; [|reflexivity].
    rewrite !bind_run. cbn [ret snd].
    rewrite updateSyncStatus_net_eq. apply updateTask_net_eq.
Qed.

Lemma fold_processItem_net cfg processed :
  forall result w,
    net (snd (fold_M (processItem cfg) processed result w)) = net w.
Proof.
  induction processed as [|x rest IH]; intros result w; [reflexivity|].
  rewrite fold_M_cons, IH. apply processItem_net.
Qed.

(** Every iteration of the batch loop probes the remote exactly once,
    whatever the outcome of the batch. *)
Lemma syncBatch_probes cfg batch result w :
  probes (snd (syncBatch cfg batch result w)) = S (probes w) /\
  health (snd (syncBatch cfg batch result w)) = health w.
Proof.
  unfold syncBatch. rewrite !bind_run.
  set (w1 := snd (markTasksInProgress (distinct (map q_task_id batch)) w)).
  destruct (markTasksInProgress_frame (distinct (map q_task_id batch)) w)
    as [_ [_ Hnet1]]. fold w1 in Hnet1.
  destruct (processBatch_frame batch w1) as [_ [_ [_ [Hh Hp]]]].
  assert (Hw1 : health w1 = health w /\ probes w1 = probes w)
    by (unfold net in Hnet1; inversion Hnet1; auto).
  destruct Hw1 as [Hh1 Hp1].
  destruct (fst (processBatch batch w1)) as [err|processed].
  - rewrite bind_run. cbn [ret snd].
    pose proof (fold_failItem_net (message_of err) batch result
                  (snd (processBatch batch w1))) as Hnet.
    unfold net in Hnet. inversion Hnet as [[Hh' Hp' Hposted]].
    rewrite Hh', Hp', Hh, Hp, Hh1, Hp1. auto.
  - pose proof (fold_processItem_net cfg processed result
                  (snd (processBatch batch w1))) as Hnet.
    unfold net in Hnet. inversion Hnet as [[Hh' Hp' Hposted]].
    rewrite Hh', Hp', Hh, Hp, Hh1, Hp1. auto.
Qed.

Lemma fold_syncBatch_probes cfg bs :
  forall result w,
    probes (snd (fold_M (syncBatch cfg) bs result w))
      = (probes w + List.length bs)%nat /\
    health (snd (fold_M (syncBatch cfg) bs result w)) = health w.
Proof.
  induction bs as [|b rest IH]; intros result w.
  - cbn. auto.
  - rewrite fold_M_cons.
    destruct (IH (fst (syncBatch cfg b result w))
                (snd (syncBatch cfg b result w))) as [-> ->].
    destruct (syncBatch_probes cfg b result w) as [-> ->].
    cbn [List.length]. split; [lia | reflexivity].
Qed.

(** C5.  A batch whose transport call throws: every item of the batch
    goes through the failure handler (a row still stored under its
    identity has one more retry and the error message, an item at the
    retry budget is archived), one error record per item, in batch
    order, is appended to the result, the failed count grows by the
    size of the batch, the result is unsuccessful, and the loop goes on
    with the remaining batches, each of which is probed in turn. *)
Theorem syncBatch_transport_failure :
  forall (cfg : Config) (batch : list SyncQueueItem)
         (rest : list (list SyncQueueItem)) (result : SyncResult)
         (w : World) (err : Thrown),
    result_of (processBatch batch)
      (world_after (markTasksInProgress (distinct (map q_task_id batch))) w)
      = inl err ->
    NoDup (map q_id batch) ->
    (forall i, In i batch -> untouched w i) ->
    let r' := result_of (syncBatch cfg batch result) w in
    let w' := world_after (syncBatch cfg batch result) w in
    (forall i, In i batch -> handled (message_of err) w' i) /\
    map error_key (errors r') =
      map error_key (errors result) ++
      map (failure_key (message_of err)) batch /\
    (exists new, errors r' = errors result ++ new /\
                 List.length new = List.length batch) /\
    failed_items r' = failed_items result + Z.of_nat (List.length batch) /\
    synced_items r' = synced_items result /\
    r_success r' = false /\
    fold_M (syncBatch cfg) (batch :: rest) result w
      = fold_M (syncBatch cfg) rest r' w' /\
    probes (world_after (fold_M (syncBatch cfg) (batch :: rest) result) w)
      = (probes w + 1 + List.length rest)%nat.
Proof.
  intros cfg batch rest result w err Hthrow Hnd Hun r' w'.
  assert (Hstep : syncBatch cfg batch result w =
    (mark_unsuccessful
       (fst (fold_M (failItem (message_of err)) batch result
               (snd (processBatch batch
                  (snd (markTasksInProgress
                          (distinct (map q_task_id batch)) w)))))),
     snd (fold_M (failItem (message_of err)) batch result
            (snd (processBatch batch
               (snd (markTasksInProgress
                       (distinct (map q_task_id batch)) w))))))).
  { unfold syncBatch. rewrite !bind_run.
    unfold result_of, world_after in Hthrow. rewrite Hthrow.
    rewrite bind_run. reflexivity. }
  subst r' w'. unfold result_of, world_after. rewrite Hstep. cbn [fst snd].
  set (w1 := snd (processBatch batch
                    (snd (markTasksInProgress
                            (distinct (map q_task_id batch)) w)))).
  assert (Hq1 : sync_queue w = sync_queue w1).
  { subst w1. destruct (processBatch_frame batch
      (snd (markTasksInProgress (distinct (map q_task_id batch)) w)))
      as [_ [-> _]].
    destruct (markTasksInProgress_frame (distinct (map q_task_id batch)) w)
      as [-> _]. reflexivity. }
  destruct (fold_failItem_result (message_of err) batch result w1)
    as [Hkeys [Hnew [Hfailed [Hsynced _]]]].
  split.
  { intros i Hin. apply fold_failItem_handled; [exact Hnd| |exact Hin].
    intros j Hj. eapply untouched_tables; [exact Hq1 | apply Hun; exact Hj]. }
  split; [exact Hkeys|]. split; [exact Hnew|]. split; [exact Hfailed|].
  split; [exact Hsynced|]. split; [reflexivity|]. split.
  - rewrite fold_M_cons, Hstep. reflexivity.
  - destruct (fold_syncBatch_probes cfg (batch :: rest) result w) as [-> _].
    cbn [List.length]. lia.
Qed.

(* ================================================================== *)
(** * A pass without connectivity *)
(* ================================================================== *)

Lemma syncBatch_thrown cfg batch result w err :
  fst (processBatch batch
         (snd (markTasksInProgress (distinct (map q_task_id batch)) w)))
    = inl err ->
  syncBatch cfg batch result w =
  (mark_unsuccessful
     (fst (fold_M (failItem (message_of err)) batch result
             (snd (processBatch batch
                (snd (markTasksInProgress
                        (distinct (map q_task_id batch)) w)))))),
   snd (fold_M (failItem (message_of err)) batch result
          (snd (processBatch batch
             (snd (markTasksInProgress
                     (distinct (map q_task_id batch)) w)))))).
Proof.
  intros Hthrow. unfold syncBatch. rewrite !bind_run, Hthrow.
  rewrite bind_run. reflexivity.
Qed.

Lemma syncBatch_offline cfg batch result w :
  (forall k, health w k = false) ->
  exists w1,
    sync_queue w1 = sync_queue w /\
    dead_letter_queue w1 = dead_letter_queue w /\
    posted w1 = posted w /\
    syncBatch cfg batch result w =
    (mark_unsuccessful
       (fst (fold_M (failItem offline_message) batch result w1)),
     snd (fold_M (failItem offline_message) batch result w1)).
Proof.
  intros Hoff.
  set (w0 := snd (markTasksInProgress (distinct (map q_task_id batch)) w)).
  destruct (markTasksInProgress_frame (distinct (map q_task_id batch)) w)
    as [Hq0 [Hd0 Hnet0]]. fold w0 in Hq0, Hd0, Hnet0.
  unfold net in Hnet0. inversion Hnet0 as [[Hh0 Hp0 Hposted0]].
  assert (Hoff0 : health w0 (probes w0) = false) by (rewrite Hh0; apply Hoff).
  destruct (processBatch_unreachable batch w0 Hoff0) as [Hthrow Hposted].
  destruct (processBatch_frame batch w0) as [_ [Hq [Hd _]]].
  exists (snd (processBatch batch w0)).
  split; [congruence|]. split; [congruence|]. split; [congruence|].
  apply (syncBatch_thrown cfg batch result w _ Hthrow).
Qed.

Lemma fold_syncBatch_offline cfg bs :
  forall result w,
    (forall k, health w k = false) ->
    let r' := fst (fold_M (syncBatch cfg) bs result w) in
    let w' := snd (fold_M (syncBatch cfg) bs result w) in
    posted w' = posted w /\
    map error_key (errors r') =
      map error_key (errors result) ++
      map (failure_key offline_message) (List.concat bs) /\
    failed_items r' =
      failed_items result + Z.of_nat (List.length (List.concat bs)) /\
    synced_items r' = synced_items result /\
    r_success r' = match bs with [] => r_success result | _ => false end.
Proof.
  induction bs as [|b rest IH]; intros result w Hoff r' w'; subst r' w'.
  - cbn. rewrite app_nil_r. repeat split. lia.
  - rewrite fold_M_cons.
    destruct (syncBatch_offline cfg b result w Hoff)
      as [w1 [Hq1 [Hd1 [Hp1 Hstep]]]].
    destruct (syncBatch_probes cfg b result w) as [_ Hh].
    assert (Hoff' : forall k, health (snd (syncBatch cfg b result w)) k = false)
      by (intros k; rewrite Hh; apply Hoff).
    destruct (IH (fst (syncBatch cfg b result w))
                (snd (syncBatch cfg b result w)) Hoff')
      as [Hposted [Hkeys [Hfailed [Hsynced Hsucc]]]].
    rewrite Hstep in *. cbn [fst snd] in *.
    destruct (fold_failItem_result offline_message b result w1)
      as [Hk1 [_ [Hf1 [Hs1 _]]]].
    pose proof (fold_failItem_net offline_message b result w1) as Hnet.
    unfold net in Hnet. inversion Hnet as [[Hh1 Hpr1 Hposted1]].
    cbn [mark_unsuccessful errors failed_items synced_items r_success] in *.
    split; [congruence|]. split; [|split; [|split]].
    + rewrite Hkeys, Hk1. cbn [List.concat]. rewrite map_app, app_assoc.
      reflexivity.
    + rewrite Hfailed, Hf1. cbn [List.concat]. rewrite length_app. lia.
    + congruence.
    + destruct rest; [reflexivity | exact Hsucc].
Qed.

Lemma fold_syncBatch_offline_others cfg bs :
  forall result w i,
    (forall k, health w k = false) ->
    (forall j, In j (List.concat bs) -> q_id i <> q_id j) ->
    (untouched w i ->
     untouched (snd (fold_M (syncBatch cfg) bs result w)) i) /\
    (handled offline_message w i ->
     handled offline_message (snd (fold_M (syncBatch cfg) bs result w)) i).
Proof.
  induction bs as [|b rest IH]; intros result w i Hoff Hids; [split; auto|].
  rewrite fold_M_cons.
  destruct (syncBatch_offline cfg b result w Hoff)
    as [w1 [Hq1 [Hd1 [_ Hstep]]]].
  destruct (syncBatch_probes cfg b result w) as [_ Hh].
  assert (Hoff' : forall k, health (snd (syncBatch cfg b result w)) k = false)
    by (intros k; rewrite Hh; apply Hoff).
  assert (Hb : forall j, In j b -> q_id i <> q_id j)
    by (intros j Hj; apply Hids; cbn [List.concat]; apply in_or_app; auto).
  assert (Hrest : forall j, In j (List.concat rest) -> q_id i <> q_id j)
    by (intros j Hj; apply Hids; cbn [List.concat]; apply in_or_app; auto).
  destruct (IH (fst (syncBatch cfg b result w))
              (snd (syncBatch cfg b result w)) i Hoff' Hrest) as [IHu IHh].
  destruct (fold_failItem_others offline_message b result w1 i Hb)
    as [Hu1 Hh1].
  split; intros H.
  - apply IHu. rewrite Hstep. cbn [snd]. apply Hu1.
    eapply untouched_tables; [symmetry; exact Hq1 | exact H].
  - apply IHh. rewrite Hstep. cbn [snd]. apply Hh1.
    eapply handled_tables;
      [symmetry; exact Hq1 | symmetry; exact Hd1 | exact H].
Qed.

Lemma NoDup_app_disjoint {A} (l1 l2 : list A) :
  NoDup (l1 ++ l2) -> forall x, In x l1 -> In x l2 -> False.
Proof.
  induction l1 as [|a l1 IH]; intros Hnd x H1 H2; [contradiction|].
  cbn [app] in Hnd. inversion Hnd as [|? ? Ha Hnd']; subst.
  destruct H1 as [->|H1].
  - apply Ha. apply in_or_app. right. exact H2.
  - exact (IH Hnd' x H1 H2).
Qed.

Lemma fold_syncBatch_offline_handled cfg bs :
  forall result w,
    (forall k, health w k = false) ->
    NoDup (map q_id (List.concat bs)) ->
    (forall i, In i (List.concat bs) -> untouched w i) ->
    forall i, In i (List.concat bs) ->
      handled offline_message (snd (fold_M (syncBatch cfg) bs result w)) i.
Proof.
  induction bs as [|b rest IH]; intros result w Hoff Hnd Hun i Hin;
    [contradiction|].
  rewrite fold_M_cons.
  destruct (syncBatch_offline cfg b result w Hoff)
    as [w1 [Hq1 [Hd1 [_ Hstep]]]].
  destruct (syncBatch_probes cfg b result w) as [_ Hh].
  assert (Hoff' : forall k, health (snd (syncBatch cfg b result w)) k = false)
    by (intros k; rewrite Hh; apply Hoff).
  cbn [List.concat] in *. rewrite map_app in Hnd.
  pose proof (NoDup_app_remove_r _ _ Hnd) as Hndb.
  pose proof (NoDup_app_remove_l _ _ Hnd) as Hndrest.
  assert (Hdiff : forall x y, In x b -> In y (List.concat rest) ->
                              q_id x <> q_id y).
  { intros x y Hx Hy Heq.
    apply (NoDup_app_disjoint _ _ Hnd (q_id x)); [apply in_map; exact Hx|].
    rewrite Heq. apply in_map. exact Hy. }
  assert (Hunb : forall j, In j b -> untouched w1 j).
  { intros j Hj. eapply untouched_tables; [symmetry; exact Hq1|].
    apply Hun. apply in_or_app. auto. }
  apply in_app_or in Hin as [Hin|Hin].
  - apply (fold_syncBatch_offline_others cfg rest _ _ i Hoff').
    + intros j Hj. apply Hdiff; assumption.
    + rewrite Hstep. cbn [snd].
      apply fold_failItem_handled; assumption.
  - apply IH; [exact Hoff' | exact Hndrest | | exact Hin].
    intros j Hj. rewrite Hstep. cbn [snd].
    apply (fold_failItem_others offline_message b result w1 j).
    + intros x Hx Heq. exact (Hdiff x j Hx Hj (eq_sym Heq)).
    + eapply untouched_tables; [symmetry; exact Hq1|].
      apply Hun. apply in_or_app. auto.
Qed.

Lemma NoDup_map_unique {A B} (f : A -> B) (l : list A) :
  NoDup (map f l) ->
  forall a b, In a l -> In b l -> f a = f b -> a = b.
Proof.
  induction l as [|x l IH]; intros Hnd a b Ha Hb Hf; [contradiction|].
  cbn [map] in Hnd. inversion Hnd as [|? ? Hx Hnd']; subst.
  destruct Ha as [->|Ha], Hb as [->|Hb]; auto.
  - exfalso. apply Hx. rewrite Hf. apply in_map. exact Hb.
  - exfalso. apply Hx. rewrite <- Hf. apply in_map. exact Ha.
Qed.

Lemma batches_nil {A} (size : positive) (l : list A) :
  match batches size l with [] => l = [] | _ => l <> [] end.
Proof. destruct l; cbn; [reflexivity | discriminate]. Qed.

(** C4, as stated, fails: with the remote unreachable the pass over two
    queued entries marks both tasks in-progress, returns two errors and
    increments both retry counters; over an empty queue it returns a
    successful result without any error. *)
Lemma sync_offline_counts_every_entry :
  (forall k, health Sample.offline_world k = false) /\
  (forall k, health Sample.idle_offline_world k = false) /\
  map row_sync_status
    (tasks (world_after (markTasksInProgress ["a"; "b"])
              Sample.offline_world)) = [in_progress; in_progress] /\
  map e_error (errors (result_of (sync Sample.cfg) Sample.offline_world))
    = ["Server not reachable"; "Server not reachable"] /\
  List.length (errors (result_of (sync Sample.cfg) Sample.offline_world))
    <> 1%nat /\
  map q_retry_count (sync_queue Sample.offline_world) = [0; 0] /\
  map q_retry_count
    (sync_queue (world_after (sync Sample.cfg) Sample.offline_world))
    = [1; 1] /\
  r_success (result_of (sync Sample.cfg) Sample.idle_offline_world) = true /\
  errors (result_of (sync Sample.cfg) Sample.idle_offline_world) = [].
Proof.
  split; [reflexivity|]. split; [reflexivity|].
  vm_compute. repeat split. discriminate.
Qed.

(** C4, amended.  A pass during which every connectivity probe fails
    posts no batch.  It routes every queued entry through the failure
    handler: the result carries one "Server not reachable" error per
    queue entry, in canonical order, counts each as failed and none as
    synced, and is unsuccessful exactly when the queue was not empty;
    afterwards a row still stored under the identity of a queued entry
    has one more retry and that message, and an entry at the retry
    budget is archived.  (Entry identities are unique in the queue.) *)
Theorem sync_offline :
  forall (cfg : Config) (w : World),
    (forall k, health w k = false) ->
    NoDup (map q_id (sync_queue w)) ->
    let r := result_of (sync cfg) w in
    let w' := world_after (sync cfg) w in
    let sorted := array_sort compareItems (result_of SELECT_sync_queue w) in
    posted w' = posted w /\
    map error_key (errors r)
      = map (failure_key "Server not reachable") sorted /\
    List.length (errors r) = List.length (sync_queue w) /\
    failed_items r = Z.of_nat (List.length (sync_queue w)) /\
    synced_items r = 0 /\
    r_success r = match sync_queue w with [] => true | _ => false end /\
    (forall i, In i (sync_queue w) -> handled "Server not reachable" w' i).
Proof.
  intros cfg w Hoff Hnd r w' sorted. subst r w'.
  unfold result_of, world_after, sync. rewrite bind_run.
  change (snd (SELECT_sync_queue w)) with w.
  change (fst (SELECT_sync_queue w)) with (result_of SELECT_sync_queue w).
  fold sorted.
  assert (Hperm : Permutation (sync_queue w) sorted).
  { subst sorted. rewrite <- array_sort_Permutation.
    apply SELECT_sync_queue_Permutation. }
  pose proof (batches_concat (SYNC_BATCH_SIZE cfg) sorted) as Hcat.
  destruct (fold_syncBatch_offline cfg (batches (SYNC_BATCH_SIZE cfg) sorted)
              initial_result w Hoff)
    as [Hposted [Hkeys [Hfailed [Hsynced Hsucc]]]].
  rewrite Hcat in *. cbn [initial_result errors map app failed_items
                           synced_items r_success] in *.
  split; [exact Hposted|]. split; [exact Hkeys|]. split.
  { rewrite <- (length_map error_key), Hkeys, length_map.
    symmetry. apply Permutation_length. exact Hperm. }
  split.
  { rewrite Hfailed, (Permutation_length Hperm). reflexivity. }
  split; [exact Hsynced|]. split.
  { rewrite Hsucc.
    pose proof (batches_nil (SYNC_BATCH_SIZE cfg) sorted) as Hnil.
    destruct (batches (SYNC_BATCH_SIZE cfg) sorted).
    - rewrite Hnil in Hperm. apply Permutation_sym, Permutation_nil in Hperm.
      rewrite Hperm. reflexivity.
    - destruct (sync_queue w); [|reflexivity].
      apply Permutation_nil in Hperm. contradiction. }
  intros i Hin.
  apply (fold_syncBatch_offline_handled cfg
           (batches (SYNC_BATCH_SIZE cfg) sorted) initial_result w Hoff).
  - rewrite Hcat. eapply Permutation_NoDup; [|exact Hnd].
    apply Permutation_map. exact Hperm.
  - rewrite Hcat. intros j Hj q Hq Hid.
    apply (NoDup_map_unique q_id (sync_queue w) Hnd); auto.
    eapply Permutation_in; [apply Permutation_sym; exact Hperm | exact Hj].
  - rewrite Hcat. eapply Permutation_in; [exact Hperm | exact Hin].
Qed.

Lemma offline_batch_NoDup : NoDup (map q_id Sample.offline_batch).
Proof.
  cbn. constructor; [intros [H|[]]; discriminate|].
  constructor; [intros []|constructor].
Defined.

Lemma offline_batch_untouched :
  forall i, In i Sample.offline_batch -> untouched Sample.offline_world i.
Proof.
  intros i [<-|[<-|[]]] q [<-|[<-|[]]] Hid;
    try reflexivity; cbn in Hid; discriminate.
Defined.

(** The pass over [Sample.offline_world]. *)
Lemma sync_offline_witness :
  (forall k, health Sample.offline_world k = false) /\
  NoDup (map q_id (sync_queue Sample.offline_world)) /\
  posted (world_after (sync Sample.cfg) Sample.offline_world)
    = posted Sample.offline_world /\
  r_success (result_of (sync Sample.cfg) Sample.offline_world) = false.
Proof.
  pose proof (sync_offline Sample.cfg Sample.offline_world
                (fun k => eq_refl) offline_batch_NoDup) as H.
  cbv beta zeta in H.
  split; [intros k; reflexivity|]. split; [exact offline_batch_NoDup|].
  split; [exact (proj1 H)|].
  exact (proj1 (proj2 (proj2 (proj2 (proj2 (proj2 H)))))).
Defined.

(** The batch of [Sample.offline_world], whose transport call throws. *)
Lemma syncBatch_transport_failure_witness :
  result_of (processBatch Sample.offline_batch)
    (world_after
       (markTasksInProgress (distinct (map q_task_id Sample.offline_batch)))
       Sample.offline_world)
    = inl (ThrownError "Server not reachable") /\
  NoDup (map q_id Sample.offline_batch) /\
  (forall i, In i Sample.offline_batch ->
             untouched Sample.offline_world i) /\
  r_success
    (result_of (syncBatch Sample.cfg Sample.offline_batch initial_result)
       Sample.offline_world) = false /\
  failed_items
    (result_of (syncBatch Sample.cfg Sample.offline_batch initial_result)
       Sample.offline_world) = 2.
Proof.
  pose proof (syncBatch_transport_failure Sample.cfg Sample.offline_batch []
                initial_result Sample.offline_world
                (ThrownError "Server not reachable") eq_refl
                offline_batch_NoDup offline_batch_untouched) as H.
  cbv beta zeta in H.
  split; [reflexivity|]. split; [exact offline_batch_NoDup|].
  split; [exact offline_batch_untouched|]. split.
  - exact (proj1 (proj2 (proj2 (proj2 (proj2 (proj2 H)))))).
  - exact (proj1 (proj2 (proj2 (proj2 H)))).
Defined.

(* ================================================================== *)
(** * The task service *)
(* ================================================================== *)

Lemma find_map_key {A} (key : A -> string) (f : A -> A) (k : string)
    (l : list A) :
  (forall a, key (f a) = key a) ->
  find (fun a => (key a =? k)%string) (map f l) =
  option_map f (find (fun a => (key a =? k)%string) l).
Proof.
  intros Hkey. induction l as [|a l IH]; [reflexivity|].
  cbn [map find]. rewrite Hkey.
  destruct (key a =? k)%string; [reflexivity | exact IH].
Qed.

Lemma find_app_fresh {A} (p : A -> bool) (l : list A) (x : A) :
  (forall a, In a l -> p a = false) ->
  find p (l ++ [x]) = if p x then Some x else None.
Proof.
  induction l as [|a l IH]; intros Hfresh; [reflexivity|].
  cbn [app find]. rewrite (Hfresh a (or_introl eq_refl)).
  apply IH. intros b Hb. apply Hfresh. right. exact Hb.
Qed.

Lemma str_or_idempotent (s : option string) (d : string) :
  str_or (Some (str_or s d)) d = str_or s d.
Proof.
  unfold str_or. destruct s as [v|].
  - destruct (String.eqb_spec v "") as [->|Hne].
    + destruct (d =? "")%string; reflexivity.
    + apply String.eqb_neq in Hne. rewrite Hne. reflexivity.
  - destruct (d =? "")%string; reflexivity.
Qed.

(** X1.  Creating a task and reading it back: when the generated identity
    is not yet in the table, [getTask] on it returns exactly the task
    that [createTask] returned. *)
Theorem createTask_getTask :
  forall (taskData : PartialTask) (w : World),
    (forall r, In r (tasks w) -> row_id r <> uuid_source w (uuids_drawn w)) ->
    let task := result_of (createTask taskData) w in
    result_of (getTask (id task)) (world_after (createTask taskData) w)
      = Some task.
Proof.
  intros taskData w Hfresh task.
  destruct (createTask_persists taskData w) as [_ [_ [_ [Htasks _]]]].
  cbv zeta in Htasks. fold task in Htasks.
  unfold result_of at 1. unfold getTask. rewrite bind_run.
  cbn [ret fst]. unfold SELECT_task. cbn [fst].
  unfold world_after in *. rewrite Htasks.
  rewrite find_app_fresh.
  - cbn [row_id]. rewrite String.eqb_refl. cbn [row_is_deleted].
    unfold mapRowToTask. cbn [row_id row_title row_description row_completed
      row_created_at row_updated_at row_is_deleted row_sync_status
      row_server_id row_last_synced_at str_or_null].
    subst task. unfold result_of, createTask. rewrite !bind_run.
    cbn [ret fst id title description completed created_at updated_at].
    rewrite str_or_idempotent. reflexivity.
  - intros r Hr. apply String.eqb_neq. exact (Hfresh r Hr).
Qed.

Lemma createTask_getTask_witness :
  (forall r, In r (tasks Sample.synced_world) ->
     row_id r <> uuid_source Sample.synced_world
                   (uuids_drawn Sample.synced_world)) /\
  result_of
    (getTask (id (result_of (createTask (Sample.payload "x"))
                    Sample.synced_world)))
    (world_after (createTask (Sample.payload "x")) Sample.synced_world)
    = Some (result_of (createTask (Sample.payload "x")) Sample.synced_world).
Proof.
  assert (Hfresh : forall r, In r (tasks Sample.synced_world) ->
     row_id r <> uuid_source Sample.synced_world
                   (uuids_drawn Sample.synced_world)).
  { intros r [<-|[]]. cbn. discriminate. }
  split; [exact Hfresh|].
  exact (createTask_getTask (Sample.payload "x") Sample.synced_world Hfresh).
Defined.

Lemma getTask_result task_id w :
  fst (getTask task_id w) =
  match find (fun r => (row_id r =? task_id)%string) (tasks w) with
  | Some r => if row_is_deleted r then None else Some (mapRowToTask r)
  | None => None
  end.
Proof. reflexivity. Qed.

Lemma deleteTask_result task_id w :
  fst (deleteTask task_id w) =
  match fst (getTask task_id w) with Some _ => true | None => false end.
Proof.
  unfold deleteTask. rewrite bind_run, getTask_world.
  destruct (fst (getTask task_id w)); reflexivity.
Qed.

Lemma deleteTask_tasks task_id w existing :
  fst (getTask task_id w) = Some existing ->
  tasks (snd (deleteTask task_id w)) =
  map (fun r =>
         if (row_id r =? task_id)%string then
           mkTaskRow (row_id r) (row_title r) (row_description r)
             (row_completed r) (row_created_at r) (clock w (clock_reads w))
             true pending (row_server_id r) (row_last_synced_at r)
             (option_map (fun v => v + 1) (row_version r))
         else r)
    (tasks w).
Proof.
  intros Hget. unfold deleteTask. rewrite bind_run, getTask_world, Hget.
  run. reflexivity.
Qed.

Lemma deleteTask_unknown task_id w :
  fst (getTask task_id w) = None -> deleteTask task_id w = (false, w).
Proof.
  intros Hget. unfold deleteTask. rewrite bind_run, getTask_world, Hget.
  reflexivity.
Qed.

Lemma deleteTask_hides task_id w :
  fst (deleteTask task_id w) = true ->
  fst (getTask task_id (snd (deleteTask task_id w))) = None.
Proof.
  intros Hdel. rewrite deleteTask_result in Hdel.
  destruct (fst (getTask task_id w)) as [existing|] eqn:Hget;
    [|discriminate].
  rewrite getTask_result, (deleteTask_tasks task_id w existing Hget).
  rewrite (find_map_key row_id).
  - destruct (find _ (tasks w)) as [r|] eqn:Hfind; [|reflexivity].
    cbn [option_map]. apply find_some in Hfind as [_ Hid].
    rewrite Hid. reflexivity.
  - intros r. destruct (row_id r =? task_id)%string; reflexivity.
Qed.

(** X2.  A missing or soft-deleted task cannot be updated or deleted: both
    calls report it and leave the whole world, tables and queue
    included, as it was. *)
Theorem mutation_of_unknown_task :
  forall (task_id : string) (updates : PartialTask) (w : World),
    result_of (getTask task_id) w = None ->
    updateTask task_id updates w = (None, w) /\
    deleteTask task_id w = (false, w).
Proof.
  intros task_id updates w Hget. unfold result_of in Hget.
  unfold updateTask, deleteTask. rewrite !bind_run, getTask_world, Hget.
  split; reflexivity.
Qed.

Lemma mutation_of_unknown_task_witness :
  result_of (getTask "zz") Sample.synced_world = None /\
  deleteTask "zz" Sample.synced_world = (false, Sample.synced_world).
Proof.
  split; [reflexivity|].
  exact (proj2 (mutation_of_unknown_task "zz" (Sample.payload "zz")
                  Sample.synced_world eq_refl)).
Defined.

(** X3.  After a successful soft delete the task can no longer be read,
    and deleting it again is refused without any further effect: no
    second queue entry, no change to the row. *)
Theorem deleteTask_once :
  forall (task_id : string) (w : World),
    result_of (deleteTask task_id) w = true ->
    let w' := world_after (deleteTask task_id) w in
    result_of (getTask task_id) w' = None /\
    deleteTask task_id w' = (false, w') /\
    map row_id (tasks w') = map row_id (tasks w).
Proof.
  intros task_id w Hdel w'. subst w'. unfold result_of, world_after in *.
  pose proof (deleteTask_hides task_id w Hdel) as Hnone.
  rewrite deleteTask_result in Hdel.
  destruct (fst (getTask task_id w)) as [existing|] eqn:Hget;
    [|discriminate].
  split; [exact Hnone|]. split.
  - apply deleteTask_unknown. exact Hnone.
  - rewrite (deleteTask_tasks task_id w existing Hget), map_map.
    apply map_ext. intros r.
    destruct (row_id r =? task_id)%string; reflexivity.
Qed.

Lemma deleteTask_once_witness :
  result_of (deleteTask "a") Sample.synced_world = true /\
  result_of (getTask "a")
    (world_after (deleteTask "a") Sample.synced_world) = None.
Proof.
  split; [reflexivity|].
  exact (proj1 (deleteTask_once "a" Sample.synced_world eq_refl)).
Defined.

(** X4.  [getAllTasks] lists live tasks only, leaves the world alone, and
    contains every task that [getTask] can read. *)
Theorem getAllTasks_live :
  forall (w : World),
    world_after getAllTasks w = w /\
    (forall t, In t (result_of getAllTasks w) -> is_deleted t = false) /\
    (forall task_id t,
        result_of (getTask task_id) w = Some t ->
        In t (result_of getAllTasks w) /\ id t = task_id).
Proof.
  intros w. split; [reflexivity|]. split.
  - intros t Hin. unfold result_of, getAllTasks in Hin. cbn [fst] in Hin.
    apply in_map_iff in Hin as [r [<- Hr]].
    apply filter_In in Hr as [_ Hlive]. cbn [mapRowToTask is_deleted].
    destruct (row_is_deleted r); [discriminate | reflexivity].
  - intros task_id t Hget. unfold result_of in Hget.
    rewrite getTask_result in Hget.
    destruct (find _ (tasks w)) as [r|] eqn:Hfind; [|discriminate].
    apply find_some in Hfind as [Hin Hid].
    destruct (row_is_deleted r) eqn:Hdel; [discriminate|].
    inversion Hget; subst t. split.
    + unfold result_of, getAllTasks. cbn [fst]. apply in_map.
      apply filter_In. rewrite Hdel. auto.
    + apply String.eqb_eq in Hid. exact Hid.
Qed.

Lemma not_listed_when_settled (k : string) (w : World) :
  (forall r, In r (tasks w) -> row_id r = k -> needs_sync r = false) ->
  forall t, In t (result_of getTasksNeedingSync w) -> id t <> k.
Proof.
  intros Hsettled t Hin Hid. unfold result_of, getTasksNeedingSync in Hin.
  cbn [fst] in Hin. apply in_map_iff in Hin as [r [<- Hr]].
  apply filter_In in Hr as [Hr Hneeds]. cbn [mapRowToTask id] in Hid.
  rewrite (Hsettled r Hr Hid) in Hneeds. discriminate.
Qed.

Lemma tasks_marked_status k s rows r :
  In r (tasks_marked k s rows) -> row_id r = k -> row_sync_status r = s.
Proof.
  unfold tasks_marked. intros Hin Hid.
  apply in_map_iff in Hin as [r0 [<- _]].
  destruct (String.eqb_spec (row_id r0) k) as [_|Hne]; [reflexivity|].
  contradiction.
Qed.

(** X5.  [getTasksNeedingSync] changes nothing and lists exactly the
    rows whose status is pending or error, deleted or not, one task per
    such row in table order: a task is listed iff it is the image of
    such a row.  A task drops out of the list when one of its entries
    is dead-lettered and when a success outcome for it is processed; a
    task that was just soft-deleted is in the list. *)
Theorem getTasksNeedingSync_listing :
  (forall (w : World),
      world_after getTasksNeedingSync w = w /\
      result_of getTasksNeedingSync w =
        map mapRowToTask
          (filter (fun r => SyncStatus_eqb (row_sync_status r) pending
                            || SyncStatus_eqb (row_sync_status r) error)
             (tasks w)) /\
      (forall t : Task,
          In t (result_of getTasksNeedingSync w) <->
          exists r, In r (tasks w) /\
                    (row_sync_status r = pending \/
                     row_sync_status r = error) /\
                    t = mapRowToTask r) /\
      (forall t : Task,
          In t (result_of getTasksNeedingSync w) ->
          sync_status t = Some pending \/ sync_status t = Some error)) /\
  (forall (item : SyncQueueItem) (msg : string) (w : World) (t : Task),
      3 <= current_retry item w + 1 ->
      In t (result_of getTasksNeedingSync
              (world_after (handleSyncError item msg) w)) ->
      id t <> q_task_id item) /\
  (forall (cfg : Config) (res : ProcessedItem) (result : SyncResult)
          (w : World) (t : Task),
      status res = success ->
      In t (result_of getTasksNeedingSync
              (world_after (processItem cfg res result) w)) ->
      id t <> client_id res) /\
  (forall (task_id : string) (w : World),
      result_of (deleteTask task_id) w = true ->
      exists t, In t (result_of getTasksNeedingSync
                        (world_after (deleteTask task_id) w)) /\
                id t = task_id /\ is_deleted t = true).
Proof.
  split; [|split; [|split]].
  - intros w. split; [reflexivity|]. split; [|split].
    + unfold result_of, getTasksNeedingSync. cbn [fst]. f_equal.
      apply filter_ext. intros r. unfold needs_sync.
      destruct (row_sync_status r); reflexivity.
    + intros t. unfold result_of, getTasksNeedingSync. cbn [fst].
      rewrite in_map_iff. split.
      * intros [r [<- Hr]]. apply filter_In in Hr as [Hr Hneeds].
        exists r. split; [exact Hr|]. split; [|reflexivity].
        unfold needs_sync in Hneeds.
        destruct (row_sync_status r); try discriminate; auto.
      * intros [r [Hr [Hst ->]]]. exists r. split; [reflexivity|].
        apply filter_In. split; [exact Hr|]. unfold needs_sync.
        destruct Hst as [->| ->]; reflexivity.
    + intros t Hin. unfold result_of, getTasksNeedingSync in Hin.
      cbn [fst] in Hin. apply in_map_iff in Hin as [r [<- Hr]].
      apply filter_In in Hr as [_ Hneeds]. unfold needs_sync in Hneeds.
      cbn [mapRowToTask sync_status].
      destruct (row_sync_status r); try discriminate; auto.
  - intros item msg w t Hge. apply not_listed_when_settled.
    intros r Hr Hid. unfold world_after in Hr.
    rewrite handleSyncError_tasks in Hr.
    destruct (Z.geb_spec (current_retry item w + 1) 3) as [_|Hlt]; [|lia].
    unfold needs_sync. rewrite (tasks_marked_status _ _ _ _ Hr Hid).
    reflexivity.
  - intros cfg res result w t Hst. apply not_listed_when_settled.
    intros r Hr Hid.
    destruct (success_outcome_effect cfg res result w Hst)
      as [_ [_ [_ Hrows]]].
    unfold needs_sync. rewrite (proj1 (Hrows r Hr Hid)). reflexivity.
  - intros task_id w Hdel. unfold result_of, world_after in *.
    rewrite deleteTask_result in Hdel.
    destruct (fst (getTask task_id w)) as [existing|] eqn:Hget;
      [|discriminate].
    pose proof Hget as Hrow. rewrite getTask_result in Hrow.
    destruct (find _ (tasks w)) as [r|] eqn:Hfind; [|discriminate].
    apply find_some in Hfind as [Hin Hid]. apply String.eqb_eq in Hid.
    eexists. split; [|split].
    + unfold getTasksNeedingSync. cbn [fst]. apply in_map.
      apply filter_In. split.
      * rewrite (deleteTask_tasks task_id w existing Hget).
        apply in_map_iff. exists r. split; [reflexivity | exact Hin].
      * rewrite Hid, String.eqb_refl. reflexivity.
    + rewrite Hid, String.eqb_refl. reflexivity.
    + rewrite Hid, String.eqb_refl. reflexivity.
Qed.

(* ================================================================== *)
(** * Batches and requests *)
(* ================================================================== *)





Lemma processBatch_outcome batch w :
  if health w (probes w) then
    posted (snd (processBatch batch w)) =
      posted w ++
      [mkRequest batch (clock w (clock_reads w)) (calculateChecksum batch)] /\
    fst (processBatch batch w) =
      remote w (List.length (posted w))
        (mkRequest batch (clock w (clock_reads w)) (calculateChecksum batch))
  else
    posted (snd (processBatch batch w)) = posted w /\
    fst (processBatch batch w) = inl (ThrownError "Server not reachable").
Proof.
  unfold processBatch. rewrite !bind_run.
  change (fst (checkConnectivity (snd (now w)))) with (health w (probes w)).
  destruct (health w (probes w)); split; reflexivity.
Qed.

(** X7.  [processBatch] probes the remote once.  If the probe fails it
    throws "Server not reachable" and posts nothing; otherwise it posts
    exactly one request, which carries the batch in order, the time of
    the call and the checksum of the batch, and returns what the remote
    answers to that request.  The tables are never touched. *)
Theorem processBatch_request :
  forall (batch : list SyncQueueItem) (w : World),
    let w' := world_after (processBatch batch) w in
    let request :=
      mkRequest batch (clock w (clock_reads w)) (calculateChecksum batch) in
    probes w' = S (probes w) /\
    tasks w' = tasks w /\ sync_queue w' = sync_queue w /\
    dead_letter_queue w' = dead_letter_queue w /\
    if health w (probes w) then
      posted w' = posted w ++ [request] /\
      result_of (processBatch batch) w
        = remote w (List.length (posted w)) request
    else
      posted w' = posted w /\
      result_of (processBatch batch) w
        = inl (ThrownError "Server not reachable").
Proof.
  intros batch w w' request. subst w' request.
  destruct (processBatch_frame batch w) as [Ht [Hq [Hd [_ Hp]]]].
  unfold world_after, result_of.
  split; [exact Hp|]. split; [exact Ht|]. split; [exact Hq|].
  split; [exact Hd|].
  pose proof (processBatch_outcome batch w) as Hout.
  destruct (health w (probes w)); destruct Hout as [Hposted Hres];
    split; assumption.
Qed.

Lemma slices_bounds {A} (size : nat) :
  (0 < size)%nat ->
  forall fuel (l b : list A),
    In b (slices fuel size l) ->
    b <> [] /\ (List.length b <= size)%nat.
Proof.
  intros Hsize. induction fuel as [|fuel IH]; intros l b Hin;
    [contradiction|].
  destruct l as [|x l]; [contradiction|].
  cbn [slices] in Hin. destruct Hin as [<-|Hin].
  - split.
    + destruct size; [lia|]. cbn. discriminate.
    + rewrite length_firstn. lia.
  - exact (IH _ b Hin).
Qed.

Lemma batches_In_bounds {A} (size : positive) (l b : list A) :
  In b (batches size l) ->
  b <> [] /\ (List.length b <= Pos.to_nat size)%nat.
Proof.
  intros Hin. apply (slices_bounds (Pos.to_nat size)) in Hin; [auto|lia].
Qed.

(** X8.  The batches of a pass are never empty and never hold more than
    [SYNC_BATCH_SIZE] entries; laid end to end they are the list that
    was cut, so no entry is lost or repeated. *)
Theorem batches_bounds :
  forall (size : positive) (l : list SyncQueueItem),
    List.concat (batches size l) = l /\
    (forall b, In b (batches size l) ->
       b <> [] /\ (List.length b <= Pos.to_nat size)%nat) /\
    (l = [] <-> batches size l = []).
Proof.
  intros size l. split; [apply batches_concat|]. split.
  - intros b Hin. split.
    + destruct (batches_In_bounds size l b Hin) as [Hne _]. exact Hne.
    + destruct (batches_In_bounds size l b Hin) as [_ Hle]. exact Hle.
  - pose proof (batches_nil size l) as H.
    destruct (batches size l); split; intros; try assumption;
      try reflexivity; try discriminate; contradiction.
Qed.

(* ================================================================== *)
(** * What a pass keeps *)
(* ================================================================== *)

Lemma map_content_update (where_ : TaskRow -> bool) (set : TaskRow -> TaskRow)
    (rows : list TaskRow) :
  (forall r, row_content (set r) = row_content r) ->
  map row_content (map (fun r => if where_ r then set r else r) rows)
    = map row_content rows.
Proof.
  intros Hset. rewrite map_map. apply map_ext. intros r.
  destruct (where_ r); [apply Hset | reflexivity].
Qed.

Lemma content_updateSyncStatus taskId st sd w :
  map row_content (tasks (snd (updateSyncStatus taskId st sd w)))
    = map row_content (tasks w).
Proof.
  destruct st; run; apply map_content_update; reflexivity.
Qed.

Lemma content_handleSyncError item msg w :
  map row_content (tasks (snd (handleSyncError item msg w)))
    = map row_content (tasks w).
Proof.
  rewrite handleSyncError_tasks. unfold tasks_marked.
  apply map_content_update. reflexivity.
Qed.

Lemma content_processItem cfg res result w :
  map row_content (tasks (snd (processItem cfg res result w)))
    = map row_content (tasks w).
Proof.
  unfold processItem.
  assert (Herr : forall message,
    map row_content
      (tasks (snd ((timestamp <- now ;;
                    UPDATE_tasks
                      (fun r => sql_eq (row_id r) (Some (client_id res)))
                      (set_row_status error) ;;
                    ret (mark_unsuccessful
                           (count_failed
                              (mkSyncError (client_id res) "unknown" message
                                 timestamp) result))) w)))
    = map row_content (tasks w)).
  { intros message. run. apply map_content_update. reflexivity. }
  destruct (status res); [| |apply Herr].
  - rewrite bind_run. cbn [ret snd]. apply content_updateSyncStatus.
  - destruct (resolved_data res) as [serverTask|]; [|apply Herr].
    rewrite bind_run.
    assert (Hw : snd ((if taskService cfg then getTask (client_id res)
                       else ret None) w) = w)
      by (destruct (taskService cfg); reflexivity).
    rewrite Hw.
    destruct (fst ((if taskService cfg then getTask (client_id res)
                    else ret None) w)) as [localTask|]; [|apply Herr].
    rewrite !bind_run. cbn [ret snd].
    rewrite content_updateSyncStatus.
    pose proof (updateTask_tasks_unchanged (client_id res)
                  (partial_of_task (resolveConflict localTask serverTask)) w)
      as Hup.
    unfold world_after in Hup. rewrite Hup. reflexivity.
Qed.

Lemma content_fold_processItem cfg processed :
  forall result w,
    map row_content (tasks (snd (fold_M (processItem cfg) processed result w)))
      = map row_content (tasks w).
Proof.
  induction processed as [|x rest IH]; intros result w; [reflexivity|].
  rewrite fold_M_cons, IH. apply content_processItem.
Qed.

Lemma content_fold_failItem msg batch :
  forall result w,
    map row_content (tasks (snd (fold_M (failItem msg) batch result w)))
      = map row_content (tasks w).
Proof.
  induction batch as [|x rest IH]; intros result w; [reflexivity|].
  rewrite fold_M_cons, IH.
  destruct (failItem_tables msg x result w) as [_ [_ [-> _]]].
  apply content_handleSyncError.
Qed.

Lemma content_markTasksInProgress taskIds w :
  map row_content (tasks (snd (markTasksInProgress taskIds w)))
    = map row_content (tasks w).
Proof.
  destruct taskIds; [reflexivity|]. run.
  apply map_content_update. reflexivity.
Qed.

Lemma content_syncBatch cfg batch result w :
  map row_content (tasks (snd (syncBatch cfg batch result w)))
    = map row_content (tasks w).
Proof.
  unfold syncBatch. rewrite !bind_run.
  set (w0 := snd (markTasksInProgress (distinct (map q_task_id batch)) w)).
  destruct (processBatch_frame batch w0) as [Ht _].
  destruct (fst (processBatch batch w0)) as [err|processed].
  - rewrite bind_run. cbn [ret snd]. rewrite content_fold_failItem, Ht.
    apply content_markTasksInProgress.
  - rewrite content_fold_processItem, Ht.
    apply content_markTasksInProgress.
Qed.

(** X9.  A sync pass, whatever the remote does, never adds or removes a
    task row and never changes what a row holds apart from its sync
    status, server identity and last-synced time: identity, title,
    description, completion, timestamps, delete flag and version are
    those from before the pass.  In particular the winner of a conflict
    is not written to the row. *)
Theorem sync_keeps_row_content :
  forall (cfg : Config) (w : World),
    map row_content (tasks (world_after (sync cfg) w))
      = map row_content (tasks w).
Proof.
  intros cfg w. unfold world_after, sync. rewrite bind_run.
  change (snd (SELECT_sync_queue w)) with w.
  generalize (batches (SYNC_BATCH_SIZE cfg)
                (array_sort compareItems (fst (SELECT_sync_queue w)))).
  intros bs. generalize initial_result. revert w.
  induction bs as [|b rest IH]; intros w result; [reflexivity|].
  rewrite fold_M_cons, IH. apply content_syncBatch.
Qed.










Lemma net_posted w1 w2 : net w1 = net w2 -> posted w1 = posted w2.
Proof. unfold net. intros H. inversion H. reflexivity. Qed.

Lemma syncBatch_posted cfg batch result w :
  exists new,
    posted (snd (syncBatch cfg batch result w)) = posted w ++ new /\
    (new = [] \/
     exists t, new = [mkRequest batch t (calculateChecksum batch)]).
Proof.
  unfold syncBatch. rewrite !bind_run.
  set (w0 := snd (markTasksInProgress (distinct (map q_task_id batch)) w)).
  destruct (markTasksInProgress_frame (distinct (map q_task_id batch)) w)
    as [_ [_ Hnet0]]. fold w0 in Hnet0. apply net_posted in Hnet0.
  pose proof (processBatch_outcome batch w0) as Hreq.
  assert (Hposted : exists new,
    posted (snd (processBatch batch w0)) = posted w ++ new /\
    (new = [] \/
     exists t, new = [mkRequest batch t (calculateChecksum batch)])).
  { destruct (health w0 (probes w0)); destruct Hreq as [Hp _];
      rewrite Hp, Hnet0.
    - eexists. split; [reflexivity|]. right. eexists. reflexivity.
    - exists []. rewrite app_nil_r. auto. }
  destruct Hposted as [new [Hp Hnew]]. exists new. split; [|exact Hnew].
  destruct (fst (processBatch batch w0)) as [err|processed].
  - rewrite bind_run. cbn [ret snd].
    rewrite (net_posted _ _ (fold_failItem_net _ _ _ _)). exact Hp.
  - rewrite (net_posted _ _ (fold_processItem_net _ _ _ _)). exact Hp.
Qed.

Lemma fold_syncBatch_posted cfg bs :
  forall result w,
    exists new,
      posted (snd (fold_M (syncBatch cfg) bs result w)) = posted w ++ new /\
      (List.length new <= List.length bs)%nat /\
      Forall (fun req => In (items req) bs /\
                         checksum req = calculateChecksum (items req)) new.
Proof.
  induction bs as [|b rest IH]; intros result w.
  - exists []. rewrite app_nil_r. cbn. auto.
  - rewrite fold_M_cons.
    destruct (syncBatch_posted cfg b result w) as [n1 [Hp1 Hn1]].
    destruct (IH (fst (syncBatch cfg b result w))
                (snd (syncBatch cfg b result w))) as [n2 [Hp2 [Hlen Hall]]].
    exists (n1 ++ n2). split; [rewrite Hp2, Hp1, app_assoc; reflexivity|].
    split.
    + rewrite length_app. cbn [List.length].
      destruct Hn1 as [->|[t ->]]; cbn [List.length]; lia.
    + apply Forall_app. split.
      * destruct Hn1 as [->|[t ->]]; [constructor|].
        constructor; [|constructor]. cbn. auto.
      * eapply Forall_impl; [|exact Hall]. cbn. intros req [Hin Hck].
        auto.
Qed.

(** X11.  What a pass sends: the requests posted during the pass are
    appended to those posted before, at most one per batch; each
    carries one of the batches of the canonical order, hence between 1
    and [SYNC_BATCH_SIZE] entries, together with the checksum of
    exactly those entries. *)
Theorem sync_posts_checksummed_batches :
  forall (cfg : Config) (w : World),
    let sorted := array_sort compareItems (result_of SELECT_sync_queue w) in
    exists new,
      posted (world_after (sync cfg) w) = posted w ++ new /\
      (List.length new
         <= List.length (batches (SYNC_BATCH_SIZE cfg) sorted))%nat /\
      Forall (fun req =>
                In (items req) (batches (SYNC_BATCH_SIZE cfg) sorted) /\
                checksum req = calculateChecksum (items req) /\
                items req <> [] /\
                (List.length (items req)
                   <= Pos.to_nat (SYNC_BATCH_SIZE cfg))%nat) new.
Proof.
  intros cfg w sorted. unfold world_after, sync. rewrite bind_run.
  change (snd (SELECT_sync_queue w)) with w.
  change (fst (SELECT_sync_queue w)) with (result_of SELECT_sync_queue w).
  fold sorted.
  destruct (fold_syncBatch_posted cfg (batches (SYNC_BATCH_SIZE cfg) sorted)
              initial_result w) as [new [Hp [Hlen Hall]]].
  exists new. split; [exact Hp|]. split; [exact Hlen|].
  eapply Forall_impl; [|exact Hall]. cbn. intros req [Hin Hck].
  destruct (batches_In_bounds (SYNC_BATCH_SIZE cfg) sorted (items req) Hin)
    as [Hne Hle].
  auto.
Qed.

Lemma handleSyncError_letters item msg w :
  exists new,
    dead_letter_queue (snd (handleSyncError item msg w))
      = dead_letter_queue w ++ new /\
    (List.length new <= 1)%nat /\
    Forall (fun dl => letter_of item dl /\ dl_error_message dl = msg) new.
Proof.
  rewrite handleSyncError_dead_letter_queue.
  destruct (current_retry item w + 1 >=? 3).
  - eexists. split; [reflexivity|]. split; [cbn; lia|].
    constructor; [|constructor]. unfold letter_of. cbn. auto.
  - exists []. rewrite app_nil_r. split; [reflexivity|].
    split; [cbn; lia | constructor].
Qed.

Lemma fold_failItem_letters msg batch :
  forall result w,
    exists new,
      dead_letter_queue (snd (fold_M (failItem msg) batch result w))
        = dead_letter_queue w ++ new /\
      (List.length new <= List.length batch)%nat /\
      Forall (fun dl => exists i, In i batch /\ letter_of i dl) new.
Proof.
  induction batch as [|x rest IH]; intros result w.
  - exists []. rewrite app_nil_r. cbn. auto.
  - rewrite fold_M_cons.
    destruct (IH (fst (failItem msg x result w))
                (snd (failItem msg x result w))) as [n2 [Hd2 [Hl2 Ha2]]].
    destruct (failItem_tables msg x result w) as [_ [Hd _]].
    destruct (handleSyncError_letters x msg w) as [n1 [Hd1 [Hl1 Ha1]]].
    exists (n1 ++ n2). split; [rewrite Hd2, Hd, Hd1, app_assoc; reflexivity|].
    split; [rewrite length_app; cbn [List.length]; lia|].
    apply Forall_app. split.
    + eapply Forall_impl; [|exact Ha1]. cbn. intros dl [Hdl _].
      exists x. auto.
    + eapply Forall_impl; [|exact Ha2]. cbn. intros dl [i [Hi Hdl]].
      exists i. auto.
Qed.

Lemma processItem_dead_letter_queue cfg res result w :
  dead_letter_queue (snd (processItem cfg res result w))
    = dead_letter_queue w.
Proof.
  unfold processItem.
  destruct (status res); [| |reflexivity].
  - rewrite bind_run. cbn [ret snd].
    apply updateSyncStatus_dead_letter_queue.
  - destruct (resolved_data res) as [serverTask|]; [|reflexivity].
    rewrite bind_run.
    assert (Hw : snd ((if taskService cfg then getTask (client_id res)
                       else ret None) w) = w)
      by (destruct (taskService cfg); reflexivity).
    rewrite Hw.
    destruct (fst ((if taskService cfg then getTask (client_id res)
                    else ret None) w)) as [localTask|]; [|reflexivity].
    rewrite !bind_run. cbn [ret snd].
    rewrite updateSyncStatus_dead_letter_queue.
    unfold updateTask. rewrite bind_run, getTask_world.
    destruct (fst (getTask (client_id res) w)); reflexivity.
Qed.

Lemma fold_processItem_dead_letter_queue cfg processed :
  forall result w,
    dead_letter_queue (snd (fold_M (processItem cfg) processed result w))
      = dead_letter_queue w.
Proof.
  induction processed as [|x rest IH]; intros result w; [reflexivity|].
  rewrite fold_M_cons, IH. apply processItem_dead_letter_queue.
Qed.

Lemma syncBatch_letters cfg batch result w :
  exists new,
    dead_letter_queue (snd (syncBatch cfg batch result w))
      = dead_letter_queue w ++ new /\
    (List.length new <= List.length batch)%nat /\
    Forall (fun dl => exists i, In i batch /\ letter_of i dl) new.
Proof.
  unfold syncBatch. rewrite !bind_run.
  set (w0 := snd (markTasksInProgress (distinct (map q_task_id batch)) w)).
  destruct (markTasksInProgress_frame (distinct (map q_task_id batch)) w)
    as [_ [Hd0 _]]. fold w0 in Hd0.
  destruct (processBatch_frame batch w0) as [_ [_ [Hd1 _]]].
  destruct (fst (processBatch batch w0)) as [err|processed].
  - rewrite bind_run. cbn [ret snd].
    destruct (fold_failItem_letters (message_of err) batch result
                (snd (processBatch batch w0))) as [new [Hd [Hl Ha]]].
    exists new. split; [congruence | auto].
  - exists []. rewrite app_nil_r, fold_processItem_dead_letter_queue.
    split; [congruence|]. split; [cbn; lia | constructor].
Qed.

(** X12.  The dead-letter store is append-only under a pass: the letters
    from before the pass are all still there, unchanged and in order;
    the pass adds at most one letter per queued entry, and every added
    letter carries the task, operation and payload of an entry that was
    in the queue. *)
Theorem sync_dead_letters_append_only :
  forall (cfg : Config) (w : World),
    exists new,
      dead_letter_queue (world_after (sync cfg) w)
        = dead_letter_queue w ++ new /\
      (List.length new <= List.length (sync_queue w))%nat /\
      Forall (fun dl => exists i, In i (sync_queue w) /\ letter_of i dl) new.
Proof.
  intros cfg w. unfold world_after, sync. rewrite bind_run.
  change (snd (SELECT_sync_queue w)) with w.
  set (sorted := array_sort compareItems (fst (SELECT_sync_queue w))).
  assert (Hperm : Permutation (sync_queue w) sorted).
  { subst sorted. rewrite <- array_sort_Permutation.
    apply SELECT_sync_queue_Permutation. }
  pose proof (batches_concat (SYNC_BATCH_SIZE cfg) sorted) as Hcat.
  assert (H : forall bs result w0,
    exists new,
      dead_letter_queue (snd (fold_M (syncBatch cfg) bs result w0))
        = dead_letter_queue w0 ++ new /\
      (List.length new <= List.length (List.concat bs))%nat /\
      Forall (fun dl => exists i, In i (List.concat bs) /\ letter_of i dl)
        new).
  { induction bs as [|b rest IH]; intros result w0.
    - exists []. rewrite app_nil_r. cbn. auto.
    - rewrite fold_M_cons.
      destruct (syncBatch_letters cfg b result w0) as [n1 [Hd1 [Hl1 Ha1]]].
      destruct (IH (fst (syncBatch cfg b result w0))
                  (snd (syncBatch cfg b result w0))) as [n2 [Hd2 [Hl2 Ha2]]].
      exists (n1 ++ n2).
      split; [rewrite Hd2, Hd1, app_assoc; reflexivity|].
      cbn [List.concat]. split; [rewrite !length_app; lia|].
      apply Forall_app. split.
      + eapply Forall_impl; [|exact Ha1]. cbn. intros dl [i [Hi Hdl]].
        exists i. split; [apply in_or_app; auto | exact Hdl].
      + eapply Forall_impl; [|exact Ha2]. cbn. intros dl [i [Hi Hdl]].
        exists i. split; [apply in_or_app; auto | exact Hdl]. }
  destruct (H (batches (SYNC_BATCH_SIZE cfg) sorted) initial_result w)
    as [new [Hd [Hl Ha]]].
  rewrite Hcat in *. exists new. split; [exact Hd|]. split.
  - rewrite (Permutation_length Hperm). exact Hl.
  - eapply Forall_impl; [|exact Ha]. cbn. intros dl [i [Hi Hdl]].
    exists i. split; [|exact Hdl].
    eapply Permutation_in; [apply Permutation_sym; exact Hperm | exact Hi].
Qed.

(* ================================================================== *)
(** * The comparator and the sort *)
(* ================================================================== *)

Lemma str_lt_asym (a b : string) :
  a <> b -> str_lt b a = negb (str_lt a b).
Proof.
  intros Hne. unfold str_lt.
  destruct (String_as_OT.compare_spec a b) as [Heq|Hab|Hba];
    [contradiction| |].
  - destruct (String_as_OT.compare_spec b a) as [Heq|Hba|Hab'];
      [congruence| |reflexivity].
    exfalso. apply (StrictOrder_Irreflexive (R := String_as_OT.lt) a).
    etransitivity; eassumption.
  - destruct (String_as_OT.compare_spec b a) as [Heq|Hba'|Hab];
      [congruence|reflexivity|].
    exfalso. apply (StrictOrder_Irreflexive (R := String_as_OT.lt) a).
    etransitivity; eassumption.
Qed.

Lemma OP_PRIORITY_inj (a b : Operation) :
  OP_PRIORITY a = OP_PRIORITY b -> a = b.
Proof. destruct a, b; cbn; intros; congruence || lia. Qed.

Lemma compareItems_flip (a b : SyncQueueItem) :
  compareItems a b < 0 <-> 0 < compareItems b a.
Proof.
  unfold compareItems. rewrite (String.eqb_sym (q_task_id b)).
  rewrite (Z.eqb_sym (q_created_at b)).
  destruct (String.eqb_spec (q_task_id a) (q_task_id b)) as [Heq|Hne];
    cbn [negb].
  - destruct (Z.eqb_spec (q_created_at a) (q_created_at b)); cbn [negb];
      lia.
  - rewrite (str_lt_asym _ _ Hne).
    destruct (str_lt (q_task_id a) (q_task_id b)); cbn [negb]; lia.
Qed.

(** X13.  The comparator of the canonical sort is a consistent comparator:
    an entry compares equal to itself, swapping the arguments flips the
    sign, and two entries compare equal exactly when they agree on
    task, enqueue time and operation. *)
Theorem compareItems_consistent :
  forall a b : SyncQueueItem,
    compareItems a a = 0 /\
    (compareItems a b < 0 <-> 0 < compareItems b a) /\
    (compareItems a b = 0 <->
       q_task_id a = q_task_id b /\ q_created_at a = q_created_at b /\
       q_operation a = q_operation b).
Proof.
  intros a b. split; [|split].
  - unfold compareItems. rewrite String.eqb_refl, Z.eqb_refl. cbn. lia.
  - apply compareItems_flip.
  - unfold compareItems.
    destruct (String.eqb_spec (q_task_id a) (q_task_id b)) as [Heq|Hne];
      cbn [negb].
    + destruct (Z.eqb_spec (q_created_at a) (q_created_at b)) as [Ht|Ht];
        cbn [negb].
      * split.
        -- intros H. repeat split; auto. apply OP_PRIORITY_inj. lia.
        -- intros [_ [_ ->]]. lia.
      * split; [lia | intros [_ [? _]]; contradiction].
    + destruct (str_lt (q_task_id a) (q_task_id b)); split;
        try lia; intros [? _]; contradiction.
Qed.

Lemma array_sort_fixed {A} (cmp : A -> A -> Z) (l : list A) :
  Sorted (fun a b => cmp a b <= 0) l -> array_sort cmp l = l.
Proof.
  induction 1 as [|x l Hs IH Hhd]; [reflexivity|].
  cbn [array_sort fold_right]. fold (array_sort cmp l). rewrite IH.
  destruct Hhd as [|y l' Hxy]; [reflexivity|].
  cbn [sort_insert]. destruct (Z.leb_spec (cmp x y) 0); [reflexivity | lia].
Qed.

(** X14.  Sorting is idempotent: the canonical sort leaves a list that is
    already in canonical order, in particular its own output, exactly
    as it is. *)
Theorem array_sort_idempotent :
  forall entries : list SyncQueueItem,
    array_sort compareItems (array_sort compareItems entries)
      = array_sort compareItems entries.
Proof.
  intros entries. apply array_sort_fixed.
  apply (array_sort_Sorted compareItems (fun a b => compareItems a b <= 0)).
  - auto.
  - intros a b Hgt.
    apply Z.lt_le_incl. apply compareItems_flip. exact Hgt.
Qed.

(* ================================================================== *)
(** * More on the conflict resolver *)
(* ================================================================== *)

(** X15.  The resolver never merges: it returns one of the two versions it
    was given, and the one it returns carries the later of the two
    [updated_at] values; when the local version is strictly newer, or
    the two versions are the same, the local version is returned. *)
Theorem resolveConflict_picks_latest :
  forall localTask serverTask : Task,
    (resolveConflict localTask serverTask = localTask \/
     resolveConflict localTask serverTask = serverTask) /\
    updated_at (resolveConflict localTask serverTask)
      = Z.max (updated_at localTask) (updated_at serverTask) /\
    resolveConflict localTask localTask = localTask.
Proof.
  intros l r. unfold resolveConflict. split; [|split].
  - destruct (updated_at l >? updated_at r); [auto|].
    destruct (updated_at r >? updated_at l); [auto|].
    destruct (_ >=? _); auto.
  - destruct (Z.gtb_spec (updated_at l) (updated_at r)); [lia|].
    destruct (Z.gtb_spec (updated_at r) (updated_at l)); [lia|].
    destruct (_ >=? _); lia.
  - rewrite Z.gtb_ltb, Z.ltb_irrefl.
    destruct (_ >=? _); reflexivity.
Qed.

(* ================================================================== *)
(** * More on per-item outcomes *)
(* ================================================================== *)



Lemma success_outcome_sync_queue cfg res result w :
  status res = success ->
  sync_queue (snd (processItem cfg res result w)) =
  filter (fun q => negb (q_task_id q =? client_id res)%string) (sync_queue w).
Proof.
  intros Hst.
  exact (proj1 (proj2 (success_outcome_effect cfg res result w Hst))).
Qed.

Lemma filter_filter {A} (p q : A -> bool) (l : list A) :
  filter p (filter q l) = filter (fun a => q a && p a) l.
Proof.
  induction l as [|a l IH]; [reflexivity|]. cbn [filter].
  destruct (q a); cbn [filter andb]; [destruct (p a)|]; rewrite IH;
    reflexivity.
Qed.

Lemma fold_success_tables cfg processed :
  forall result w,
    Forall (fun res => status res = success) processed ->
    fst (fold_M (processItem cfg) processed result w) =
      mkResult (r_success result)
        (synced_items result + Z.of_nat (List.length processed))
        (failed_items result) (errors result) /\
    sync_queue (snd (fold_M (processItem cfg) processed result w)) =
      filter (fun q =>
                negb (existsb (fun res => (q_task_id q =? client_id res)%string)
                        processed))
        (sync_queue w) /\
    dead_letter_queue (snd (fold_M (processItem cfg) processed result w))
      = dead_letter_queue w.
Proof.
  induction processed as [|x rest IH]; intros result w Hall.
  - cbn. repeat split.
    + destruct result; cbn. f_equal. lia.
    + induction (sync_queue w) as [|q l IHl]; [reflexivity|].
      cbn [filter]. f_equal. exact IHl.
  - inversion Hall as [|? ? Hx Hrest]; subst. rewrite fold_M_cons.
    destruct (IH (fst (processItem cfg x result w))
                (snd (processItem cfg x result w)) Hrest) as [Hr [Hq Hd]].
    destruct (success_outcome_effect cfg x result w Hx) as [Hres _].
    unfold result_of in Hres.
    split; [|split].
    + rewrite Hr, Hres. cbn [count_synced r_success synced_items
        failed_items errors List.length]. f_equal. lia.
    + rewrite Hq, (success_outcome_sync_queue cfg x result w Hx).
      rewrite filter_filter. apply filter_ext. intros q.
      cbn [existsb]. rewrite negb_orb. reflexivity.
    + rewrite Hd. apply processItem_dead_letter_queue.
Qed.

Lemma fold_success_keeps_synced cfg (k : string) processed :
  forall result w,
    Forall (fun res => status res = success) processed ->
    (forall r, In r (tasks w) -> row_id r = k -> row_sync_status r = synced) ->
    forall r,
      In r (tasks (snd (fold_M (processItem cfg) processed result w))) ->
      row_id r = k -> row_sync_status r = synced.
Proof.
  induction processed as [|y ys IH]; intros result w Hs Hinv r.
  - exact (Hinv r).
  - inversion Hs as [|? ? Hy Hys]; subst. rewrite fold_M_cons.
    apply IH; [exact Hys|].
    intros r1 Hr1 Hid1.
    pose proof (success_outcome_server_id cfg y result w Hy) as Htasks.
    unfold world_after in Htasks. rewrite Htasks in Hr1.
    apply in_map_iff in Hr1 as [r2 [Hr2 Hin2]].
    destruct (row_id r2 =? client_id y)%string.
    + subst r1. reflexivity.
    + subst r1. exact (Hinv r2 Hin2 Hid1).
Qed.

(** X17.  A response in which every outcome is a success: each outcome is
    counted as synced and nothing else in the result changes; the queue
    loses exactly the entries of the tasks the outcomes name, entries
    that were not part of the batch included; every row of a named task
    ends synced; the dead-letter store is untouched. *)
Theorem success_response :
  forall (cfg : Config) (processed : list ProcessedItem)
         (result : SyncResult) (w : World),
    Forall (fun res => status res = success) processed ->
    let r' := result_of (fold_M (processItem cfg) processed result) w in
    let w' := world_after (fold_M (processItem cfg) processed result) w in
    r' = mkResult (r_success result)
           (synced_items result + Z.of_nat (List.length processed))
           (failed_items result) (errors result) /\
    sync_queue w' =
      filter (fun q =>
                negb (existsb (fun res => (q_task_id q =? client_id res)%string)
                        processed))
        (sync_queue w) /\
    (forall r, In r (tasks w') ->
       (exists res, In res processed /\ client_id res = row_id r) ->
       row_sync_status r = synced) /\
    dead_letter_queue w' = dead_letter_queue w.
Proof.
  intros cfg processed result w Hall r' w'. subst r' w'.
  unfold result_of, world_after.
  destruct (fold_success_tables cfg processed result w Hall)
    as [Hr [Hq Hd]].
  split; [exact Hr|]. split; [exact Hq|]. split; [|exact Hd].
  clear Hr Hq Hd. revert result w Hall.
  induction processed as [|x rest IH]; intros result w Hall r Hin [res [Hres Hid]];
    [contradiction|].
  inversion Hall as [|? ? Hx Hrest]; subst. rewrite fold_M_cons in Hin.
  destruct Hres as [<-|Hres].
  - destruct (success_outcome_effect cfg x result w Hx)
      as [_ [_ [_ Hrows]]].
    apply (fold_success_keeps_synced cfg (client_id x) rest _ _ Hrest
             (fun r0 H0 Hid0 => proj1 (Hrows r0 H0 Hid0)) r Hin).
    symmetry. exact Hid.
  - apply (IH _ _ Hrest r Hin). exists res. auto.
Qed.

Lemma success_response_witness :
  Forall (fun res => status res = success) [Sample.accepted_outcome] /\
  sync_queue
    (world_after
       (fold_M (processItem Sample.cfg) [Sample.accepted_outcome]
          initial_result) Sample.pending_world) = [].
Proof.
  assert (Hall : Forall (fun res => status res = success)
                   [Sample.accepted_outcome])
    by (constructor; [reflexivity | constructor]).
  split; [exact Hall|].
  pose proof (success_response Sample.cfg [Sample.accepted_outcome]
                initial_result Sample.pending_world Hall) as H.
  cbv beta zeta in H. rewrite (proj1 (proj2 H)). reflexivity.
Defined.

(* ================================================================== *)
(** * The routes *)
(* ================================================================== *)

(** X18.  [POST /sync] fails fast: when its connectivity probe fails it
    answers 503 "No connectivity" without starting a pass, so tasks,
    queue (retry counters included), dead letters and posted requests
    are exactly as before; only the probe was spent. *)
Theorem postSync_offline :
  forall (batch_size : positive) (w : World),
    health w (probes w) = false ->
    let w' := world_after (postSync batch_size) w in
    result_of (postSync batch_size) w = Failure 503 "No connectivity" /\
    tasks w' = tasks w /\ sync_queue w' = sync_queue w /\
    dead_letter_queue w' = dead_letter_queue w /\
    posted w' = posted w /\ probes w' = S (probes w).
Proof.
  intros batch_size w Hoff w'. subst w'.
  unfold result_of, world_after, postSync. rewrite bind_run.
  change (fst (checkConnectivity w)) with (health w (probes w)).
  rewrite Hoff. repeat split.
Qed.

Lemma postSync_offline_witness :
  health Sample.offline_world (probes Sample.offline_world) = false /\
  result_of (postSync 10) Sample.offline_world
    = Failure 503 "No connectivity" /\
  sync_queue (world_after (postSync 10) Sample.offline_world)
    = sync_queue Sample.offline_world.
Proof.
  pose proof (postSync_offline 10 Sample.offline_world eq_refl) as H.
  cbv beta zeta in H. split; [reflexivity|].
  split; [exact (proj1 H) | exact (proj1 (proj2 (proj2 H)))].
Defined.

(** X19.  [POST /] requires a title: without one (absent or empty) it
    answers 400 and changes nothing; with one it answers 201 with a
    pending task that has exactly that title, and has added one row to
    [tasks] and one create entry to the queue. *)
Theorem postTask_requires_title :
  forall (body_title body_description : option string) (w : World),
    let w' := world_after (postTask body_title body_description) w in
    match str_or_null body_title with
    | None =>
        postTask body_title body_description w
          = (Failure 400 "Title is required", w)
    | Some given =>
        exists task,
          result_of (postTask body_title body_description) w
            = Reply 201 task /\
          title task = given /\ given <> "" /\
          sync_status task = Some pending /\
          map row_id (tasks w') = map row_id (tasks w) ++ [id task] /\
          map (fun q => (q_task_id q, q_operation q)) (sync_queue w')
            = map (fun q => (q_task_id q, q_operation q)) (sync_queue w)
              ++ [(id task, create)]
    end.
Proof.
  intros body_title body_description w w'. subst w'.
  unfold postTask, world_after, result_of.
  destruct body_title as [v|]; cbn [str_or_null]; [|reflexivity].
  destruct (String.eqb_spec v "") as [->|Hne]; [reflexivity|].
  rewrite bind_run. cbn [ret fst snd].
  eexists. split; [reflexivity|].
  pose proof (createTask_persists
                (mkPartialTask None (Some v) body_description None None None
                   None None None None None) w) as Hc.
  cbv zeta in Hc. unfold world_after, result_of in Hc.
  destruct Hc as [Hst [_ [_ [Ht Hq]]]].
  split.
  { unfold createTask. rewrite !bind_run. cbn [ret fst title p_title str_or].
    apply String.eqb_neq in Hne. rewrite Hne. reflexivity. }
  split; [exact Hne|]. split; [exact Hst|]. split.
  - rewrite Ht, map_app. reflexivity.
  - rewrite Hq, map_app. reflexivity.
Qed.

(* ================================================================== *)
(** * More on the retry / dead-letter path *)
(* ================================================================== *)

Lemma item_string_bump msg i : item_string (bump msg i) = item_string i.
Proof. reflexivity. Qed.

(** X20.  The checksum of a batch does not depend on retry bookkeeping: a
    batch whose entries have been through the failure handler (retry
    counter incremented, error message stored) has the checksum it had
    on the first attempt. *)
Theorem calculateChecksum_ignores_retries :
  forall (msg : string) (batch : list SyncQueueItem),
    calculateChecksum (map (bump msg) batch) = calculateChecksum batch.
Proof.
  intros msg batch. rewrite !calculateChecksum_stated.
  unfold stated_checksum. rewrite map_map.
  rewrite (map_ext _ item_string (item_string_bump msg)). reflexivity.
Qed.

(** X21.  Dead-lettering an entry takes its whole task out of the queue:
    when the incremented counter reaches 3, the queue afterwards holds
    exactly the entries of other tasks, while a single letter, for the
    entry itself, is added to the dead-letter store; queued sibling
    entries of the same task are dropped without being archived. *)
Theorem dead_letter_drops_siblings :
  forall (item : SyncQueueItem) (msg : string) (w : World),
    untouched w item ->
    3 <= q_retry_count item + 1 ->
    let w' := world_after (handleSyncError item msg) w in
    sync_queue w' =
      filter (fun q => negb (q_task_id q =? q_task_id item)%string)
        (sync_queue w) /\
    List.length (dead_letter_queue w')
      = S (List.length (dead_letter_queue w)).
Proof.
  intros item msg w Hun Hge w'. subst w'. unfold world_after.
  pose proof (current_retry_untouched item w Hun) as Hcur.
  rewrite handleSyncError_sync_queue, handleSyncError_dead_letter_queue, Hcur.
  destruct (Z.geb_spec (q_retry_count item + 1) 3) as [_|Hlt]; [|lia].
  split.
  - rewrite filter_filter. apply filter_ext_in. intros q Hq.
    destruct (String.eqb_spec (q_id q) (q_id item)) as [Hid|Hne];
      cbn [negb andb]; [|reflexivity].
    rewrite (Hun q Hq Hid), String.eqb_refl. reflexivity.
  - rewrite length_app. cbn [List.length]. lia.
Qed.

Lemma dead_letter_drops_siblings_witness :
  untouched
    (Sample.world [Sample.row "a" pending]
       [Sample.entry "e1" "a" create Sample.t0 2;
        Sample.entry "e2" "a" update (Sample.t0 + 5) 0]
       Sample.offline Sample.no_reply)
    (Sample.entry "e1" "a" create Sample.t0 2) /\
  sync_queue
    (world_after
       (handleSyncError (Sample.entry "e1" "a" create Sample.t0 2) "boom")
       (Sample.world [Sample.row "a" pending]
          [Sample.entry "e1" "a" create Sample.t0 2;
           Sample.entry "e2" "a" update (Sample.t0 + 5) 0]
          Sample.offline Sample.no_reply)) = [].
Proof.
  assert (Hun : untouched
    (Sample.world [Sample.row "a" pending]
       [Sample.entry "e1" "a" create Sample.t0 2;
        Sample.entry "e2" "a" update (Sample.t0 + 5) 0]
       Sample.offline Sample.no_reply)
    (Sample.entry "e1" "a" create Sample.t0 2)).
  { intros q [<-|[<-|[]]] Hid; [reflexivity|]. cbn in Hid. discriminate. }
  split; [exact Hun|].
  pose proof (dead_letter_drops_siblings _ "boom" _ Hun) as H.
  cbv beta zeta in H. rewrite (proj1 (H ltac:(cbn; lia))). reflexivity.
Defined.

Lemma stored_entry_untouched j w :
  untouched w j -> In j (sync_queue w) -> stored_entry (q_id j) w = Some j.
Proof.
  intros Hun Hin. unfold stored_entry.
  destruct (find _ (sync_queue w)) as [q|] eqn:Hfind.
  - apply find_some in Hfind as [Hq Hid]. apply String.eqb_eq in Hid.
    rewrite (Hun q Hq Hid). reflexivity.
  - exfalso. pose proof (find_none _ _ Hfind j Hin) as Hno.
    cbn in Hno. rewrite String.eqb_refl in Hno. discriminate.
Qed.

Lemma handleSyncError_below_budget j msg w :
  untouched w j -> In j (sync_queue w) -> q_retry_count j + 1 < 3 ->
  untouched (snd (handleSyncError j msg w)) (bump msg j) /\
  In (bump msg j) (sync_queue (snd (handleSyncError j msg w))) /\
  dead_letter_queue (snd (handleSyncError j msg w)) = dead_letter_queue w.
Proof.
  intros Hun Hin Hlt.
  pose proof (current_retry_untouched j w Hun) as Hcur.
  rewrite handleSyncError_dead_letter_queue. unfold untouched.
  rewrite handleSyncError_sync_queue, Hcur.
  destruct (Z.geb_spec (q_retry_count j + 1) 3) as [Hge|_]; [lia|].
  split; [|split; [|reflexivity]].
  - intros q' Hq' Hid. apply in_map_iff in Hq' as [q [Hq Hq0]].
    destruct (String.eqb_spec (q_id q) (q_id j)) as [Heq|Hne].
    + rewrite (Hun q Hq0 Heq) in Hq. subst q'. reflexivity.
    + subst q'. cbn [bump q_id] in Hid. contradiction.
  - apply in_map_iff. exists j. rewrite String.eqb_refl. auto.
Qed.

Lemma handleSyncError_at_budget j msg w :
  untouched w j -> 3 <= q_retry_count j + 1 ->
  (forall q, In q (sync_queue (snd (handleSyncError j msg w))) ->
             q_id q <> q_id j) /\
  exists dl,
    dead_letter_queue (snd (handleSyncError j msg w))
      = dead_letter_queue w ++ [dl] /\
    letter_of j dl /\ dl_error_message dl = msg.
Proof.
  intros Hun Hge.
  pose proof (current_retry_untouched j w Hun) as Hcur.
  rewrite handleSyncError_dead_letter_queue, handleSyncError_sync_queue, Hcur.
  destruct (Z.geb_spec (q_retry_count j + 1) 3) as [_|Hlt]; [|lia].
  split.
  - intros q Hq Hid. apply filter_In in Hq as [Hq _].
    apply filter_In in Hq as [_ Hne].
    rewrite Hid, String.eqb_refl in Hne. discriminate.
  - eexists. split; [reflexivity|]. unfold letter_of. cbn. auto.
Qed.

(** X22.  The retry budget over three failures of a fresh entry, each
    failure handled on the row then stored: after the first and the
    second the entry is still queued, with counters 1 and 2 and the
    message; the third removes it from the queue and archives it, and
    over the three rounds exactly one dead letter has been added. *)
Theorem three_failures_dead_letter :
  forall (i : SyncQueueItem) (msg : string) (w : World),
    untouched w i -> In i (sync_queue w) -> q_retry_count i = 0 ->
    let w1 := world_after (handleSyncError i msg) w in
    let w2 := world_after (handleSyncError (bump msg i) msg) w1 in
    let w3 :=
      world_after (handleSyncError (bump msg (bump msg i)) msg) w2 in
    stored_entry (q_id i) w1 = Some (bump msg i) /\
    stored_entry (q_id i) w2 = Some (bump msg (bump msg i)) /\
    q_retry_count (bump msg (bump msg i)) = 2 /\
    (forall q, In q (sync_queue w3) -> q_id q <> q_id i) /\
    exists dl,
      dead_letter_queue w3 = dead_letter_queue w ++ [dl] /\
      letter_of i dl /\ dl_error_message dl = msg.
Proof.
  intros i msg w Hun Hin Hzero w1 w2 w3. subst w1 w2 w3.
  unfold world_after.
  destruct (handleSyncError_below_budget i msg w Hun Hin)
    as [Hun1 [Hin1 Hd1]]; [lia|].
  destruct (handleSyncError_below_budget (bump msg i) msg _ Hun1 Hin1)
    as [Hun2 [Hin2 Hd2]]; [cbn [bump q_retry_count]; lia|].
  destruct (handleSyncError_at_budget (bump msg (bump msg i)) msg _ Hun2)
    as [Hgone [dl [Hd3 [Hletter Hmsg]]]]; [cbn [bump q_retry_count]; lia|].
  split; [exact (stored_entry_untouched _ _ Hun1 Hin1)|].
  split; [exact (stored_entry_untouched _ _ Hun2 Hin2)|].
  split; [cbn [bump q_retry_count]; lia|].
  split; [exact Hgone|].
  exists dl. split; [rewrite Hd3, Hd2, Hd1; reflexivity|].
  split; [exact Hletter | exact Hmsg].
Qed.

Lemma three_failures_dead_letter_witness :
  untouched Sample.pending_world Sample.queued_entry /\
  In Sample.queued_entry (sync_queue Sample.pending_world) /\
  q_retry_count Sample.queued_entry = 0 /\
  stored_entry (q_id Sample.queued_entry)
    (world_after (handleSyncError Sample.queued_entry "boom")
       Sample.pending_world)
    = Some (bump "boom" Sample.queued_entry).
Proof.
  assert (Hun : untouched Sample.pending_world Sample.queued_entry)
    by (intros q [<-|[]] _; reflexivity).
  assert (Hin : In Sample.queued_entry (sync_queue Sample.pending_world))
    by (left; reflexivity).
  split; [exact Hun|]. split; [exact Hin|]. split; [reflexivity|].
  exact (proj1 (three_failures_dead_letter Sample.queued_entry "boom"
                  Sample.pending_world Hun Hin eq_refl)).
Defined.

(* ================================================================== *)
(** * A pass against a remote that accepts everything *)
(* ================================================================== *)

Lemma updateSyncStatus_remote taskId st sd w :
  remote (snd (updateSyncStatus taskId st sd w)) = remote w.
Proof. destruct st; reflexivity. Qed.

Lemma processItem_success_remote cfg res result w :
  status res = success ->
  remote (snd (processItem cfg res result w)) = remote w.
Proof.
  intros Hst. unfold processItem. rewrite Hst, bind_run. cbn [ret snd].
  apply updateSyncStatus_remote.
Qed.

Lemma fold_success_remote cfg processed :
  forall result w,
    Forall (fun res => status res = success) processed ->
    remote (snd (fold_M (processItem cfg) processed result w)) = remote w /\
    net (snd (fold_M (processItem cfg) processed result w)) = net w.
Proof.
  induction processed as [|x rest IH]; intros result w Hall; [split; reflexivity|].
  inversion Hall as [|? ? Hx Hrest]; subst. rewrite fold_M_cons.
  destruct (IH (fst (processItem cfg x result w))
              (snd (processItem cfg x result w)) Hrest) as [-> ->].
  split; [apply processItem_success_remote; exact Hx | apply processItem_net].
Qed.

Lemma syncBatch_accepted cfg batch result w :
  accepts_everything w ->
  accepts_everything (snd (syncBatch cfg batch result w)) /\
  (exists n, fst (syncBatch cfg batch result w) =
             mkResult (r_success result) (synced_items result + Z.of_nat n)
               (failed_items result) (errors result)) /\
  (forall q, In q (sync_queue (snd (syncBatch cfg batch result w))) ->
             In q (sync_queue w) /\
             forall i, In i batch -> q_task_id q <> q_task_id i) /\
  dead_letter_queue (snd (syncBatch cfg batch result w))
    = dead_letter_queue w.
Proof.
  intros [Hup Hacc]. unfold syncBatch. rewrite !bind_run.
  set (w0 := snd (markTasksInProgress (distinct (map q_task_id batch)) w)).
  destruct (markTasksInProgress_frame (distinct (map q_task_id batch)) w)
    as [Hq0 [Hd0 Hnet0]]. fold w0 in Hq0, Hd0, Hnet0.
  assert (Hr0 : remote w0 = remote w)
    by (subst w0; destruct (distinct (map q_task_id batch)); reflexivity).
  assert (Hh0 : health w0 = health w)
    by (unfold net in Hnet0; inversion Hnet0; reflexivity).
  pose proof (processBatch_outcome batch w0) as Hreq.
  rewrite Hh0, Hup in Hreq. destruct Hreq as [_ Hres].
  destruct (processBatch_frame batch w0) as [_ [Hq1 [Hd1 [Hh1 _]]]].
  assert (Hr1 : remote (snd (processBatch batch w0)) = remote w0).
  { unfold processBatch. rewrite !bind_run.
    change (fst (checkConnectivity (snd (now w0))))
      with (health w0 (probes w0)).
    destruct (health w0 (probes w0)); reflexivity. }
  rewrite Hres, Hr0.
  destruct (Hacc (List.length (posted w0))
              (mkRequest batch (clock w0 (clock_reads w0))
                 (calculateChecksum batch)))
    as [outcomes [-> [Hall Hcover]]].
  destruct (fold_success_tables cfg outcomes result
              (snd (processBatch batch w0)) Hall) as [Hr [Hq Hd]].
  destruct (fold_success_remote cfg outcomes result
              (snd (processBatch batch w0)) Hall) as [Hrem Hnet].
  split; [|split; [|split]].
  - split.
    + intros k. unfold net in Hnet. inversion Hnet as [[Hh Hp Hpo]].
      rewrite Hh, Hh1, Hh0. apply Hup.
    + intros k req. rewrite Hrem, Hr1, Hr0. apply Hacc.
  - exists (List.length outcomes). exact Hr.
  - intros q Hin. rewrite Hq in Hin. apply filter_In in Hin as [Hin Hno].
    split; [congruence|].
    intros i Hi Heq. cbn [items] in Hcover.
    destruct (Hcover i Hi) as [res [Hres' Hid]].
    assert (Hex : existsb (fun res0 => (q_task_id q =? client_id res0)%string)
                    outcomes = true).
    { apply existsb_exists. exists res. split; [exact Hres'|].
      apply String.eqb_eq. congruence. }
    rewrite Hex in Hno. discriminate.
  - congruence.
Qed.

Lemma fold_syncBatch_accepted cfg bs :
  forall result w,
    accepts_everything w ->
    (exists n, fst (fold_M (syncBatch cfg) bs result w) =
               mkResult (r_success result)
                 (synced_items result + Z.of_nat n)
                 (failed_items result) (errors result)) /\
    (forall q, In q (sync_queue (snd (fold_M (syncBatch cfg) bs result w))) ->
               In q (sync_queue w) /\
               forall i, In i (List.concat bs) ->
                         q_task_id q <> q_task_id i) /\
    dead_letter_queue (snd (fold_M (syncBatch cfg) bs result w))
      = dead_letter_queue w.
Proof.
  induction bs as [|b rest IH]; intros result w Hacc.
  - split; [|split; [|reflexivity]].
    + exists O. destruct result; cbn. f_equal. lia.
    + intros q Hq. split; [exact Hq | intros i []].
  - rewrite fold_M_cons.
    destruct (syncBatch_accepted cfg b result w Hacc)
      as [Hacc' [[n1 Hr1] [Hq1 Hd1]]].
    destruct (IH (fst (syncBatch cfg b result w))
                (snd (syncBatch cfg b result w)) Hacc')
      as [[n2 Hr2] [Hq2 Hd2]].
    split; [|split].
    + exists (n1 + n2)%nat. rewrite Hr2, Hr1.
      cbn [r_success synced_items failed_items errors]. f_equal. lia.
    + intros q Hq. destruct (Hq2 q Hq) as [Hin Hrest].
      destruct (Hq1 q Hin) as [Hin0 Hb]. split; [exact Hin0|].
      intros i Hi. cbn [List.concat] in Hi. apply in_app_or in Hi as [Hi|Hi];
        [apply Hb | apply Hrest]; exact Hi.
    + congruence.
Qed.

(** X23.  A pass against a reachable remote that answers every request with
    success outcomes covering the tasks of the items sent: the queue is
    empty afterwards, the result is successful, counts no failure and
    holds no error, and no dead letter is written. *)
Theorem sync_all_accepted :
  forall (cfg : Config) (w : World),
    accepts_everything w ->
    let r := result_of (sync cfg) w in
    let w' := world_after (sync cfg) w in
    sync_queue w' = [] /\
    r_success r = true /\ failed_items r = 0 /\ errors r = [] /\
    0 <= synced_items r /\
    dead_letter_queue w' = dead_letter_queue w.
Proof.
  intros cfg w Hacc r w'. subst r w'.
  unfold result_of, world_after, sync. rewrite bind_run.
  change (snd (SELECT_sync_queue w)) with w.
  set (sorted := array_sort compareItems (fst (SELECT_sync_queue w))).
  assert (Hperm : Permutation (sync_queue w) sorted).
  { subst sorted. rewrite <- array_sort_Permutation.
    apply SELECT_sync_queue_Permutation. }
  destruct (fold_syncBatch_accepted cfg
              (batches (SYNC_BATCH_SIZE cfg) sorted) initial_result w Hacc)
    as [[n Hr] [Hq Hd]].
  rewrite batches_concat in Hq. rewrite Hr.
  cbn [initial_result r_success failed_items errors synced_items].
  split; [|repeat split; try lia; exact Hd].
  destruct (sync_queue (snd (fold_M (syncBatch cfg)
              (batches (SYNC_BATCH_SIZE cfg) sorted) initial_result w)))
    as [|q l] eqn:Hqueue; [reflexivity|].
  exfalso. destruct (Hq q (or_introl eq_refl)) as [Hin Hno].
  apply (Hno q); [|reflexivity].
  eapply Permutation_in; [exact Hperm | exact Hin].
Qed.

Lemma pending_world_accepts : accepts_everything Sample.pending_world.
Proof.
  split; [intros k; reflexivity|].
  intros k req. eexists. split; [reflexivity|]. split.
  - apply Forall_forall. intros res Hin.
    apply in_map_iff in Hin as [i [<- _]]. reflexivity.
  - intros i Hi. eexists. split; [apply in_map; exact Hi | reflexivity].
Defined.

Lemma sync_all_accepted_witness :
  accepts_everything Sample.pending_world /\
  sync_queue (world_after (sync Sample.cfg) Sample.pending_world) = [] /\
  r_success (result_of (sync Sample.cfg) Sample.pending_world) = true.
Proof.
  pose proof (sync_all_accepted Sample.cfg Sample.pending_world
                pending_world_accepts) as H.
  cbv beta zeta in H.
  split; [exact pending_world_accepts|].
  split; [exact (proj1 H) | exact (proj1 (proj2 H))].
Defined.

(** X24.  After [DELETE /:id] has answered 200, [GET /:id] answers 404 and
    a repeated [DELETE /:id] answers 404 without any effect. *)
Theorem deleteTaskRoute_then_gone :
  forall (task_id : string) (w : World),
    result_of (deleteTaskRoute task_id) w
      = Reply 200 "Task deleted successfully" ->
    let w' := world_after (deleteTaskRoute task_id) w in
    getTaskRoute task_id w' = (Failure 404 "Task not found", w') /\
    deleteTaskRoute task_id w' = (Failure 404 "Task not found", w').
Proof.
  intros task_id w Hok w'. subst w'.
  unfold result_of, world_after, deleteTaskRoute, getTaskRoute in *.
  rewrite bind_run in Hok.
  destruct (fst (deleteTask task_id w)) eqn:Hdel; [|discriminate].
  pose proof (deleteTask_hides task_id w Hdel) as Hget.
  pose proof (deleteTask_unknown task_id _ Hget) as Hdel2.
  rewrite !bind_run. rewrite Hdel. cbn [negb ret snd].
  rewrite Hget, Hdel2, getTask_world. split; reflexivity.
Qed.

Lemma deleteTaskRoute_then_gone_witness :
  result_of (deleteTaskRoute "a") Sample.synced_world
    = Reply 200 "Task deleted successfully" /\
  result_of (getTaskRoute "a")
    (world_after (deleteTaskRoute "a") Sample.synced_world)
    = Failure 404 "Task not found".
Proof.
  split; [reflexivity|].
  unfold result_of at 1.
  rewrite (proj1 (deleteTaskRoute_then_gone "a" Sample.synced_world eq_refl)).
  reflexivity.
Defined.

(** X25.  In the conflict branch the local version is read with [getTask],
    so it is live and carries no version counter: its inferred
    operation is create when it was never edited and update otherwise.
    Hence on an [updated_at] tie a remote version that is deleted
    always wins, and a remote plain update wins over a never-edited
    local task. *)
Theorem conflict_with_stored_task :
  forall (task_id : string) (w : World) (localTask serverTask : Task),
    result_of (getTask task_id) w = Some localTask ->
    inferOperationType localTask
      = (if created_at localTask =? updated_at localTask
         then create else update) /\
    (updated_at localTask = updated_at serverTask ->
     (is_deleted serverTask = true ->
      resolveConflict localTask serverTask = serverTask) /\
     (inferOperationType serverTask = update ->
      created_at localTask = updated_at localTask ->
      resolveConflict localTask serverTask = serverTask)).
Proof.
  intros task_id w l r Hget. unfold result_of in Hget.
  rewrite getTask_result in Hget.
  destruct (find _ (tasks w)) as [row|]; [|discriminate].
  destruct (row_is_deleted row) eqn:Hdel; [discriminate|].
  inversion Hget; subst l. clear Hget.
  assert (Hinfer : inferOperationType (mapRowToTask row)
    = (if created_at (mapRowToTask row) =? updated_at (mapRowToTask row)
       then create else update)).
  { unfold inferOperationType.
    cbn [mapRowToTask is_deleted version created_at updated_at].
    rewrite Hdel. reflexivity. }
  split; [exact Hinfer|].
  intros Htie. unfold resolveConflict. rewrite Htie.
  rewrite Z.gtb_ltb, Z.ltb_irrefl. rewrite Hinfer. split.
  - intros Hdeleted.
    assert (Hr : inferOperationType r = delete)
      by (unfold inferOperationType; rewrite Hdeleted; reflexivity).
    rewrite Hr. destruct (_ =? _); reflexivity.
  - intros Hr Hfresh. rewrite Hr.
    destruct (Z.eqb_spec (created_at (mapRowToTask row))
                (updated_at (mapRowToTask row))); [reflexivity|].
    congruence.
Qed.

Lemma conflict_with_stored_task_witness :
  result_of (getTask "a") Sample.synced_world
    = Some (mapRowToTask (Sample.row "a" synced)) /\
  inferOperationType (mapRowToTask (Sample.row "a" synced)) = update.
Proof.
  split; [reflexivity|].
  rewrite (proj1 (conflict_with_stored_task "a" Sample.synced_world
                    (mapRowToTask (Sample.row "a" synced))
                    Sample.updated_remote eq_refl)).
  reflexivity.
Defined.
